(** * satusehat-sdk: the token manager and the FHIR resource builder

    A shallow embedding of [src/auth/index.ts] (class [OAuth]),
    [src/resources/fhir] (class [FhirResourceBuilder] and
    [FhirOperationOutcomeError]) and [src/resources/organization]
    (class [OrganizationService]), with the properties the SDK's
    specification states about them.

    Conventions of the embedding.
    - A JavaScript string is the sequence of bytes of its UTF-8 encoding
      (well-formed text is assumed), held in a [string].
    - [Date.now()] and HTTP statuses are integers and live in [Z].  What
      [parseInt] and the arithmetic of [fetchToken] produce are doubles
      with integer values: they are rounded as IEEE 754 binary64 rounds,
      with [NaN] and the infinities where the code can produce them.
      Numbers inside JSON payloads are never computed with and stay in an
      abstract type [number] that only knows its rendering.
    - [JSON.parse], [JSON.stringify], the clock and [fetch] belong to the
      platform: the first two are parameters of the development, the last
      two are read from an environment [Env] handed to every operation.
    - An asynchronous method is a computation [M A]: it reads the
      environment, threads the [World] (the shared [OAuth] object and the
      log of the requests sent so far) and either returns or throws. *)

From Stdlib Require Import ZArith NArith List String Ascii Bool Lia.
From Stdlib Require Import Decimal DecimalString.
Import ListNotations.

#[local] Open Scope string_scope.
#[local] Open Scope Z_scope.

Set Implicit Arguments.
Set Warnings "-register-all".

(** ** Characters and percent encoding *)

Definition code (c : ascii) : N := N_of_ascii c.

Definition in_range (lo hi : N) (c : ascii) : bool :=
  ((lo <=? code c) && (code c <=? hi))%N.

Definition is_digit (c : ascii) : bool := in_range 48 57 c.

Definition is_alnum (c : ascii) : bool :=
  is_digit c || in_range 65 90 c || in_range 97 122 c.

Definition one_of (cs : list ascii) (c : ascii) : bool :=
  existsb (Ascii.eqb c) cs.

Definition hex_digit (n : N) : ascii :=
  if (n <? 10)%N then ascii_of_N (48 + n) else ascii_of_N (55 + n).

(** [%XX], upper-case hexadecimal, as both encoders below emit it. *)
Definition percent_byte (c : ascii) : string :=
  String "%" (String (hex_digit (code c / 16))
             (String (hex_digit (code c mod 16)) EmptyString)).

Fixpoint encode_with (f : ascii -> string) (s : string) : string :=
  match s with
  | EmptyString => EmptyString
  | String c r => f c ++ encode_with f r
  end.

(** [encodeURIComponent]: everything but the unreserved marks
    [A-Z a-z 0-9 - _ . ! ~ * ' ( )] is percent-encoded, byte by byte. *)
Definition uri_unreserved (c : ascii) : bool :=
  is_alnum c || one_of ["-"; "_"; "."; "!"; "~"; "*"; "'"; "("; ")"]%char c.

Definition encodeURIComponent : string -> string :=
  encode_with (fun c => if uri_unreserved c then String c EmptyString
                        else percent_byte c).

(** ** URLSearchParams

    The object is the ordered list of its name/value pairs; [append] adds at
    the end; [toString] is the application/x-www-form-urlencoded serializer:
    a space becomes [+], the bytes [A-Z a-z 0-9 * - . _] stay, every other
    byte is percent-encoded, pairs are joined by [&]. *)

Definition URLSearchParams := list (string * string).

Definition append (p : URLSearchParams) (name value : string) : URLSearchParams :=
  (p ++ [(name, value)])%list.

Definition form_byte (c : ascii) : string :=
  if Ascii.eqb c " " then "+"
  else if is_alnum c || one_of ["*"; "-"; "."; "_"]%char c
       then String c EmptyString
       else percent_byte c.

Definition form_encode : string -> string := encode_with form_byte.

Definition form_pair (kv : string * string) : string :=
  form_encode (fst kv) ++ "=" ++ form_encode (snd kv).

Fixpoint URLSearchParams_toString (p : URLSearchParams) : string :=
  match p with
  | [] => ""
  | [kv] => form_pair kv
  | kv :: r => form_pair kv ++ "&" ++ URLSearchParams_toString r
  end.

(** ** Integers as JavaScript numbers, and [parseInt(s, 10)]

    [Int z] is the double whose value is the integer [z].  The two
    infinities are written [Int (2 ^ 1024)] and [Int (- 2 ^ 1024)]: no
    finite double reaches that magnitude. *)

Inductive intnum : Type :=
| NaN
| Int (z : Z).

(** Below [2 ^ 53] every integer is a double. *)
Definition two53 : Z := 2 ^ 53.

Definition infinity : Z := 2 ^ 1024.

(** The double nearest to the natural number [n], as binary64 rounds: 53
    significant bits are kept, what is cut off rounds to nearest, a tie
    to the even significand, and what comes out at [2 ^ 1024] or above is
    infinite. *)
Definition round_magnitude (n : Z) : Z :=
  if n <? two53 then n
  else
    let shift := Z.log2 n - 52 in
    let q := Z.shiftr n shift in
    let r := n - Z.shiftl q shift in
    let half := Z.shiftl 1 (shift - 1) in
    let q' := if r <? half then q
              else if half <? r then q + 1
              else if Z.even q then q else q + 1 in
    let m := Z.shiftl q' shift in
    if infinity <=? m then infinity else m.

(** The double nearest to the integer [z]. *)
Definition to_double (z : Z) : Z := Z.sgn z * round_magnitude (Z.abs z).

Definition is_infinite (z : Z) : bool := infinity <=? Z.abs z.

(** [a + b]: the exact sum, rounded; an infinity absorbs what is finite,
    and the two infinities add up to [NaN]. *)
Definition num_add (a b : intnum) : intnum :=
  match a, b with
  | Int x, Int y =>
      if is_infinite x && is_infinite y && negb (Z.sgn x =? Z.sgn y) then NaN
      else if is_infinite x then Int (Z.sgn x * infinity)
      else if is_infinite y then Int (Z.sgn y * infinity)
      else Int (to_double (x + y))
  | _, _ => NaN
  end.

Definition num_sub (a b : intnum) : intnum :=
  match a, b with Int x, Int y => Int (x - y) | _, _ => NaN end.

(** [a * b]: the exact product, rounded; an infinity times zero is [NaN],
    times anything else an infinity. *)
Definition num_mul (a b : intnum) : intnum :=
  match a, b with
  | Int x, Int y =>
      if is_infinite x || is_infinite y then
        if (x =? 0) || (y =? 0) then NaN
        else Int (Z.sgn x * Z.sgn y * infinity)
      else Int (to_double (x * y))
  | _, _ => NaN
  end.

(** [a < b]: false as soon as one side is [NaN]. *)
Definition num_ltb (a b : intnum) : bool :=
  match a, b with Int x, Int y => x <? y | _, _ => false end.

(** Leading white space of ECMAScript ([WhiteSpace] and [LineTerminator]),
    read off the UTF-8 bytes: TAB LF VT FF CR SP; U+00A0; U+1680;
    U+2000..U+200A, U+2028, U+2029, U+202F; U+205F; U+3000; U+FEFF. *)
Definition ws1 (a : ascii) : bool :=
  in_range 9 13 a || (code a =? 32)%N.

Definition ws2 (a b : ascii) : bool :=
  ((code a =? 194) && (code b =? 160))%N.

Definition ws3 (a b c : ascii) : bool :=
  ((code a =? 225) && (code b =? 154) && (code c =? 128)
   || (code a =? 226) && (code b =? 128)
      && (in_range 128 138 c || in_range 168 169 c || (code c =? 175))
   || (code a =? 226) && (code b =? 129) && (code c =? 159)
   || (code a =? 227) && (code b =? 128) && (code c =? 128)
   || (code a =? 239) && (code b =? 187) && (code c =? 191))%N.

Fixpoint trim_start (s : string) : string :=
  match s with
  | EmptyString => s
  | String a r1 =>
      if ws1 a then trim_start r1
      else match r1 with
           | EmptyString => s
           | String b r2 =>
               if ws2 a b then trim_start r2
               else match r2 with
                    | EmptyString => s
                    | String c r3 => if ws3 a b c then trim_start r3 else s
                    end
           end
  end.

Fixpoint take_digits (s : string) : string :=
  match s with
  | EmptyString => EmptyString
  | String c r => if is_digit c then String c (take_digits r) else EmptyString
  end.

Definition digit_value (c : ascii) : Z := Z.of_N (code c - 48).

Fixpoint digits_to_Z (acc : Z) (s : string) : Z :=
  match s with
  | EmptyString => acc
  | String c r => digits_to_Z (10 * acc + digit_value c) r
  end.

(** [parseInt(s, 10)]: skip white space, read an optional sign, then the
    longest run of decimal digits; [NaN] when that run is empty, else the
    double nearest to the integer the run denotes (ECMAScript lets an
    engine drop digits after the twentieth; V8 rounds the whole run, and
    so does this definition).  Whatever follows the digits is ignored. *)
Definition parseInt (s : string) : intnum :=
  let t := trim_start s in
  let '(sign, t) :=
    match t with
    | String "-" r => (-1, r)
    | String "+" r => (1, r)
    | _ => (1, t)
    end in
  match take_digits t with
  | EmptyString => NaN
  | ds => Int (to_double (sign * digits_to_Z 0 ds))
  end.

(** The rendering of an integer by [String(n)] or a template literal. *)
Definition Z_toString (z : Z) : string :=
  NilZero.string_of_int (Z.to_int z).

(** ** JSON values and the conversions JavaScript applies to them *)

(** What [JSON.parse] can return.  An object is the list of its own
    properties in enumeration order, each name occurring once. *)
Inductive json (number : Type) : Type :=
| JNull
| JBool (b : bool)
| JNum (n : number)
| JStr (s : string)
| JArr (items : list (json number))
| JObj (props : list (string * json number)).

Arguments JNull {number}.
Arguments JBool {number} b.
Arguments JNum {number} n.
Arguments JStr {number} s.
Arguments JArr {number} items.
Arguments JObj {number} props.

(** The platform the SDK runs on, as far as its code can tell. *)
Class Platform : Type := {
  number : Type;
  Number_toString : number -> string;
  (** [JSON.parse]: [None] when it throws a [SyntaxError]. *)
  JSON_parse : string -> option (json number);
  JSON_stringify : json number -> string
}.

(** What a method can throw. *)
Inductive exn {P : Platform} : Type :=
| Error (message : string)
| FhirOperationOutcomeError (message : string)
    (operationOutcome : json number) (status : Z)
| TypeError
| SyntaxError
| NetworkError.

Section Values.
Context {P : Platform}.

(** A JavaScript value read out of a payload: [None] is [undefined]. *)
Definition jsval : Type := option (json number).

Definition lookup (k : string) (props : list (string * json number)) : jsval :=
  option_map snd (find (fun kv => String.eqb (fst kv) k) props).

(** [v.k] for a property name [k] that no built-in prototype defines (all
    the names the SDK reads are of that kind): only an object has it. *)
Definition prop (v : json number) (k : string) : jsval :=
  match v with
  | JObj props => lookup k props
  | _ => None
  end.

(** [v.k], which throws on [null]. *)
Definition member (v : json number) (k : string) : exn + jsval :=
  match v with
  | JNull => inl TypeError
  | _ => inr (prop v k)
  end.

(** [v?.k] *)
Definition opt_member (v : jsval) (k : string) : jsval :=
  match v with
  | None | Some JNull => None
  | Some x => prop x k
  end.

(** [v?.[i]]: an element of an array, a character of a string, the property
    named by the digits of [i] of an object. *)
Definition opt_index (v : jsval) (i : nat) : jsval :=
  match v with
  | Some (JArr items) => nth_error items i
  | Some (JStr s) => option_map (fun c => JStr (String c EmptyString)) (String.get i s)
  | Some (JObj props) => lookup (Z_toString (Z.of_nat i)) props
  | _ => None
  end.

(** [a ?? b] *)
Definition nullish_or (a b : jsval) : jsval :=
  match a with
  | None | Some JNull => b
  | Some _ => a
  end.

Definition has_key (k : string) (props : list (string * json number)) : bool :=
  existsb (fun kv => String.eqb (fst kv) k) props.

(** [ToString] on a payload value; [None] when it throws a [TypeError].
    An array is joined with commas, [null] elements rendering as nothing.
    A plain object renders as [[object Object]] through
    [Object.prototype.toString], unless an own property named [toString]
    shadows that method: a parsed value is never callable, and
    [Object.prototype.valueOf] gives back the object, so the conversion
    fails. *)
Fixpoint ToString_json (v : json number) : option string :=
  match v with
  | JNull => Some "null"
  | JBool true => Some "true"
  | JBool false => Some "false"
  | JNum n => Some (Number_toString n)
  | JStr s => Some s
  | JArr items =>
      let element x :=
        match x with JNull => Some "" | _ => ToString_json x end in
      (fix join (l : list (json number)) : option string :=
         match l with
         | [] => Some ""
         | [x] => element x
         | x :: r =>
             match element x, join r with
             | Some a, Some b => Some (a ++ "," ++ b)
             | _, _ => None
             end
         end) items
  | JObj props =>
      if has_key "toString" props then None else Some "[object Object]"
  end.

Definition ToString (v : jsval) : exn + string :=
  match v with
  | None => inr "undefined"
  | Some x => match ToString_json x with
              | Some s => inr s
              | None => inl TypeError
              end
  end.

(** ** FhirOperationOutcomeError *)

Definition fallback_message : string := "FHIR OperationOutcome error".

(** The [message] expression of the constructor, before [super] sees it. *)
Definition outcome_message (operationOutcome : json number) : exn + jsval :=
  match member operationOutcome "issue" with
  | inl e => inl e
  | inr issue =>
      let first := opt_index issue 0 in
      inr (nullish_or
             (nullish_or (opt_member first "diagnostics")
                         (opt_member (opt_member first "details") "text"))
             (Some (JStr fallback_message)))
  end.

(** [new FhirOperationOutcomeError(operationOutcome, status)]: the error
    built ([inr]), or what the construction throws ([inl]).  [super(message)]
    is the [Error] constructor, which stores [ToString(message)]. *)
Definition new_FhirOperationOutcomeError
    (operationOutcome : json number) (status : Z) : exn + exn :=
  match outcome_message operationOutcome with
  | inl e => inl e
  | inr message =>
      match ToString message with
      | inl e => inl e
      | inr m => inr (FhirOperationOutcomeError m operationOutcome status)
      end
  end.

Definition instanceof_FhirOperationOutcomeError (e : exn) : bool :=
  match e with
  | FhirOperationOutcomeError _ _ _ => true
  | _ => false
  end.

(** The [name] of a thrown error: [FhirOperationOutcomeError] sets its own,
    the others have the one of their class ([fetch] rejects with a
    [TypeError]). *)
Definition error_name (e : exn) : string :=
  match e with
  | Error _ => "Error"
  | FhirOperationOutcomeError _ _ _ => "FhirOperationOutcomeError"
  | TypeError | NetworkError => "TypeError"
  | SyntaxError => "SyntaxError"
  end.

(** The [status] property of a thrown error, where it has one. *)
Definition error_status (e : exn) : option Z :=
  match e with
  | FhirOperationOutcomeError _ _ status => Some status
  | _ => None
  end.

End Values.

(** ** Requests, responses, and the monad of asynchronous methods *)

(** The arguments of one [fetch] call; a [URLSearchParams] body is sent in
    its serialized form. *)
Record Request : Type := {
  url : string;
  method : string;
  headers : list (string * string);
  body : option string
}.

Record Response : Type := {
  status : Z;
  text : string
}.

(** [response.ok] *)
Definition ok (r : Response) : bool :=
  (200 <=? status r) && (status r <=? 299).

(** What the outside world answers during one operation: the reading of
    the clock, and the reply to each request ([None]: [fetch] rejects). *)
Record Env : Type := {
  Date_now : Z;
  fetch_reply : Request -> option Response
}.

Inductive Environment : Type := development | production.

Record Urls : Type := { auth : string; fhir_url : string }.

Definition BASE_URLS (e : Environment) : Urls :=
  match e with
  | development =>
      {| auth := "https://api-satusehat-stg.dto.kemkes.go.id/oauth2/v1";
         fhir_url := "https://api-satusehat-stg.dto.kemkes.go.id/fhir-r4/v1" |}
  | production =>
      {| auth := "https://api-satusehat.kemkes.go.id/oauth2/v1";
         fhir_url := "https://api-satusehat.kemkes.go.id/fhir-r4/v1" |}
  end.

(** Seconds before expiry at which a token stops being reused. *)
Definition TOKEN_EXPIRY_BUFFER : Z := 60.

Section SDK.
Context {P : Platform}.

Record TokenState : Type := {
  accessToken : jsval;
  expiresAt : intnum
}.

Record OAuth : Type := {
  clientId : string;
  clientSecret : string;
  authUrl : string;
  tokenState : option TokenState
}.

Definition new_OAuth (clientId clientSecret : string)
    (environment : Environment) : OAuth :=
  {| clientId := clientId;
     clientSecret := clientSecret;
     authUrl := auth (BASE_URLS environment);
     tokenState := None |}.

(** The one [OAuth] object every builder and service of a client refers
    to, and the requests sent so far, oldest first. *)
Record World : Type := {
  oauth : OAuth;
  sent : list Request
}.

Definition M (A : Type) : Type := Env -> World -> (exn + A) * World.

Definition ret {A} (a : A) : M A := fun _ w => (inr a, w).

Definition throw {A} (e : exn) : M A := fun _ w => (inl e, w).

Definition bind {A B} (c : M A) (k : A -> M B) : M B :=
  fun env w =>
    match c env w with
    | (inl e, w') => (inl e, w')
    | (inr a, w') => k a env w'
    end.

Notation "x <- c ;; k" := (bind c (fun x => k))
  (at level 61, c at next level, right associativity).
Notation "c ;; k" := (bind c (fun _ => k))
  (at level 61, right associativity).

(** A pure step that may throw. *)
Definition lift {A} (r : exn + A) : M A :=
  match r with
  | inl e => throw e
  | inr a => ret a
  end.

Definition now : M Z := fun env w => (inr (Date_now env), w).

Definition this_oauth : M OAuth := fun _ w => (inr (oauth w), w).

Definition set_tokenState (ts : option TokenState) : M unit :=
  fun _ w =>
    (inr tt,
     {| oauth := {| clientId := clientId (oauth w);
                    clientSecret := clientSecret (oauth w);
                    authUrl := authUrl (oauth w);
                    tokenState := ts |};
        sent := sent w |}).

(** [fetch]: the request goes out, then the reply comes or the call
    rejects. *)
Definition fetch (r : Request) : M Response :=
  fun env w =>
    let w' := {| oauth := oauth w; sent := (sent w ++ [r])%list |} in
    match fetch_reply env r with
    | Some response => (inr response, w')
    | None => (inl NetworkError, w')
    end.

(** [response.json()] *)
Definition response_json (response : Response) : M (json number) :=
  match JSON_parse (text response) with
  | Some v => ret v
  | None => throw SyntaxError
  end.

(** ** class OAuth *)

Definition isTokenValid : M bool :=
  o <- this_oauth ;;
  match tokenState o with
  | None => ret false
  | Some ts =>
      t <- now ;;
      let expiresAt := num_sub (expiresAt ts) (Int (TOKEN_EXPIRY_BUFFER * 1000)) in
      ret (num_ltb (Int t) expiresAt)
  end.

Definition token_request (o : OAuth) : Request :=
  {| url := authUrl o ++ "/accesstoken?grant_type=client_credentials";
     method := "POST";
     headers := [("Content-Type", "application/x-www-form-urlencoded")];
     body := Some (URLSearchParams_toString
                     [("client_id", clientId o);
                      ("client_secret", clientSecret o)]) |}.

Definition fetchToken : M unit :=
  o <- this_oauth ;;
  response <- fetch (token_request o) ;;
  if negb (ok response) then
    let errorText := text response in
    throw (Error ("Failed to fetch access token: "
                  ++ Z_toString (status response) ++ " " ++ errorText))
  else
    data <- response_json response ;;
    expires_in <- lift (member data "expires_in") ;;
    expires_in <- lift (ToString expires_in) ;;
    let expiresInMs := num_mul (parseInt expires_in) (Int 1000) in
    issued_at <- lift (member data "issued_at") ;;
    issued_at <- lift (ToString issued_at) ;;
    let issuedAt := parseInt issued_at in
    access_token <- lift (member data "access_token") ;;
    set_tokenState (Some {| accessToken := access_token;
                            expiresAt := num_add issuedAt expiresInMs |}).

(** [this.tokenState!.accessToken] *)
Definition cached_accessToken : M jsval :=
  o <- this_oauth ;;
  match tokenState o with
  | Some ts => ret (accessToken ts)
  | None => throw TypeError
  end.

Definition getAccessToken : M jsval :=
  valid <- isTokenValid ;;
  if valid then cached_accessToken
  else fetchToken ;; cached_accessToken.

Definition clearToken : M unit := set_tokenState None.

(** ** class FhirResourceBuilder *)

(** The builder's [oauth] field is the reference to the [OAuth] object of
    the [World]; [resourceType] is one of the FHIR R4 resource names. *)
Record FhirResourceBuilder : Type := {
  baseUrl : string;
  resourceType : string
}.

(** A value of [string | string[] | number | boolean]. *)
Inductive qvalue : Type :=
| QString (s : string)
| QArray (items : list string)
| QNumber (n : number)
| QBoolean (b : bool).

(** [queryParams], as [Object.entries] enumerates it. *)
Definition QueryParams : Type := list (string * qvalue).

Record FhirGetParams : Type := {
  pathParams : option string;
  queryParams : option QueryParams
}.

(** [FhirPutParams]: its [pathParams] is mandatory. *)
Record FhirPutParams : Type := {
  put_pathParams : string
}.

(** Truthiness of a [string | undefined]. *)
Definition truthy (s : option string) : bool :=
  match s with
  | None | Some EmptyString => false
  | Some _ => true
  end.

(** The [append] calls one entry of the mapping gives rise to. *)
Definition append_entry (searchParams : URLSearchParams)
    (entry : string * qvalue) : URLSearchParams :=
  let '(key, value) := entry in
  match value with
  | QArray items => fold_left (fun sp v => append sp key v) items searchParams
  | QString s => append searchParams key s
  | QNumber n => append searchParams key (Number_toString n)
  | QBoolean b => append searchParams key (if b then "true" else "false")
  end.

Definition buildUrl (this : FhirResourceBuilder)
    (pathParams : option string) (queryParams : option QueryParams) : string :=
  let url := baseUrl this ++ "/" ++ resourceType this in
  let url :=
    match pathParams with
    | Some p => if truthy pathParams then url ++ "/" ++ encodeURIComponent p else url
    | None => url
    end in
  match queryParams with
  | Some q =>
      if (0 <? List.length q)%nat then
        let searchParams := fold_left append_entry q [] in
        url ++ "?" ++ URLSearchParams_toString searchParams
      else url
  | None => url
  end.

Definition is_OperationOutcome (v : json number) : bool :=
  match opt_member (Some v) "resourceType" with
  | Some (JStr s) => String.eqb s "OperationOutcome"
  | _ => false
  end.

(** The [try] block of [handleErrorResponse]: what it throws, if anything. *)
Definition classify_attempt (response : Response) : exn + unit :=
  match JSON_parse (text response) with
  | None => inl SyntaxError
  | Some v =>
      if is_OperationOutcome v then
        match new_FhirOperationOutcomeError v (status response) with
        | inl e => inl e
        | inr e => inl e
        end
      else inr tt
  end.

Definition handleErrorResponse (this : FhirResourceBuilder)
    (response : Response) (method : string) : M unit :=
  let text := text response in
  match classify_attempt response with
  | inl e =>
      if instanceof_FhirOperationOutcomeError e then throw e else ret tt
  | inr tt => ret tt
  end ;;
  throw (Error ("FHIR " ++ method ++ " " ++ resourceType this ++ " gagal: "
                ++ Z_toString (status response) ++ " " ++ text)).

Definition bearer_headers (token contentType : string) : list (string * string) :=
  [("Authorization", "Bearer " ++ token); ("Content-Type", contentType)].

Definition get (this : FhirResourceBuilder)
    (params : option FhirGetParams) : M (json number) :=
  token <- getAccessToken ;;
  let url := buildUrl this
               (match params with Some p => pathParams p | None => None end)
               (match params with Some p => queryParams p | None => None end) in
  token <- lift (ToString token) ;;
  response <- fetch {| url := url; method := "GET";
                       headers := bearer_headers token "application/json";
                       body := None |} ;;
  (if negb (ok response) then handleErrorResponse this response "GET"
   else ret tt) ;;
  response_json response.

Definition post (this : FhirResourceBuilder)
    (body : json number) : M (json number) :=
  token <- getAccessToken ;;
  let url := buildUrl this None None in
  token <- lift (ToString token) ;;
  response <- fetch {| url := url; method := "POST";
                       headers := bearer_headers token "application/json";
                       body := Some (JSON_stringify body) |} ;;
  (if negb (ok response) then handleErrorResponse this response "POST"
   else ret tt) ;;
  response_json response.

Definition put (this : FhirResourceBuilder) (params : FhirPutParams)
    (body : json number) : M (json number) :=
  token <- getAccessToken ;;
  let url := buildUrl this (Some (put_pathParams params)) None in
  token <- lift (ToString token) ;;
  response <- fetch {| url := url; method := "PUT";
                       headers := bearer_headers token "application/json";
                       body := Some (JSON_stringify body) |} ;;
  (if negb (ok response) then handleErrorResponse this response "PUT"
   else ret tt) ;;
  response_json response.

(** [operations] is the array the caller passes, one object per JSON Patch
    operation. *)
Definition patch (this : FhirResourceBuilder) (params : FhirPutParams)
    (operations : list (json number)) : M (json number) :=
  token <- getAccessToken ;;
  let url := buildUrl this (Some (put_pathParams params)) None in
  token <- lift (ToString token) ;;
  response <- fetch {| url := url; method := "PATCH";
                       headers := bearer_headers token "application/json-patch+json";
                       body := Some (JSON_stringify (JArr operations)) |} ;;
  (if negb (ok response) then handleErrorResponse this response "PATCH"
   else ret tt) ;;
  response_json response.

(** ** class OrganizationService *)

Record OrganizationService : Type := {
  org_baseUrl : string;
  org_resourceType : string;
  org_fhir : FhirResourceBuilder
}.

Definition new_OrganizationService (baseUrl : string) : OrganizationService :=
  {| org_baseUrl := baseUrl;
     org_resourceType := "Organization";
     org_fhir := {| baseUrl := baseUrl; resourceType := "Organization" |} |}.

Definition byId (this : OrganizationService) (id : string) : M (json number) :=
  response <- get (org_fhir this)
                  (Some {| pathParams := Some id; queryParams := None |}) ;;
  ret response.

Definition byName (this : OrganizationService) (name : string) : M (json number) :=
  token <- getAccessToken ;;
  token <- lift (ToString token) ;;
  response <- fetch {| url := org_baseUrl this ++ "/" ++ org_resourceType this
                              ++ "?name=" ++ encodeURIComponent name;
                       method := "GET";
                       headers := [("Authorization", "Bearer " ++ token)];
                       body := None |} ;;
  if negb (ok response) then
    let errorText := text response in
    throw (Error ("Failed to search " ++ org_resourceType this ++ ": "
                  ++ Z_toString (status response) ++ " " ++ errorText))
  else response_json response.

End SDK.

(** ** class SatusehatClient *)

Section Client.
Context {P : Platform}.

Record SatusehatConfig : Type := {
  cfg_clientId : string;
  cfg_clientSecret : string;
  cfg_environment : Environment
}.

Record SatusehatClient : Type := {
  fhirBaseUrl : string;
  organization : OrganizationService
}.

(** The constructor: the client, and the world holding its [OAuth] object. *)
Definition new_SatusehatClient (config : SatusehatConfig) : SatusehatClient * World :=
  let urls := BASE_URLS (cfg_environment config) in
  ({| fhirBaseUrl := fhir_url urls;
      organization := new_OrganizationService (fhir_url urls) |},
   {| oauth := new_OAuth (cfg_clientId config) (cfg_clientSecret config)
                         (cfg_environment config);
      sent := [] |}).

Definition fhir (this : SatusehatClient) (resourceType : string) : FhirResourceBuilder :=
  {| baseUrl := fhirBaseUrl this; resourceType := resourceType |}.

End Client.

(** ** What the specification's sentences denote *)

(** A decimal numeral: digits only, at least one. *)
Fixpoint all_digits (s : string) : bool :=
  match s with
  | EmptyString => true
  | String c r => is_digit c && all_digits r
  end.

Definition is_decimal (s : string) : Prop :=
  s <> EmptyString /\ all_digits s = true.

(** Its value, positionally: each digit weighs ten to the number of digits
    that follow it. *)
Fixpoint decimal_value (s : string) : Z :=
  match s with
  | EmptyString => 0
  | String c r => digit_value c * 10 ^ Z.of_nat (String.length r) + decimal_value r
  end.

Section Spec.
Context {P : Platform}.

(** The cached token may be reused at time [t]: it is there, and [t] is
    more than the buffer before its expiry. *)
Definition reusable (t : Z) (o : OAuth) : Prop :=
  exists ts e, tokenState o = Some ts /\ expiresAt ts = Int e
               /\ t < e - 60 * 1000.

(** The [OAuth] object with its token state replaced, the rest kept. *)
Definition with_tokenState (o : OAuth) (ts : option TokenState) : OAuth :=
  {| clientId := clientId o; clientSecret := clientSecret o;
     authUrl := authUrl o; tokenState := ts |}.

(** The world after one more request. *)
Definition after_request (w : World) (r : Request) : World :=
  {| oauth := oauth w; sent := (sent w ++ [r])%list |}.

(** The URL as the specification words it: the id suffix whenever an id is
    supplied, the query string whenever a mapping is supplied. *)
Definition spec_url (this : FhirResourceBuilder)
    (id : option string) (query : option QueryParams) : string :=
  baseUrl this ++ "/" ++ resourceType this
  ++ match id with
     | Some i => "/" ++ encodeURIComponent i
     | None => ""
     end
  ++ match query with
     | Some q => "?" ++ URLSearchParams_toString (fold_left append_entry q [])
     | None => ""
     end.

(** One name/value occurrence per scalar, one per element of a list, in
    the order given. *)
Definition occurrences (entry : string * qvalue) : list (string * string) :=
  match snd entry with
  | QArray items => map (fun v => (fst entry, v)) items
  | QString s => [(fst entry, s)]
  | QNumber n => [(fst entry, Number_toString n)]
  | QBoolean b => [(fst entry, if b then "true" else "false")]
  end.

(** An error of a kind of its own for the token endpoint, with the HTTP
    status as its datum, as the specification describes the authentication
    failure. *)
Definition is_AuthenticationError (e : exn) (status : Z) : Prop :=
  error_name e = "AuthenticationError" /\ error_status e = Some status.

(** The parts of an outcome payload the error message is drawn from. *)
Definition first_issue (operationOutcome : json number) : jsval :=
  opt_index (prop operationOutcome "issue") 0.

Definition issue_diagnostics (operationOutcome : json number) : jsval :=
  opt_member (first_issue operationOutcome) "diagnostics".

Definition issue_details_text (operationOutcome : json number) : jsval :=
  opt_member (opt_member (first_issue operationOutcome) "details") "text".

Definition absent (v : jsval) : Prop := v = None \/ v = Some JNull.

(** The generic failure of the builder. *)
Definition request_error (this : FhirResourceBuilder) (method : string)
    (response : Response) : exn :=
  Error ("FHIR " ++ method ++ " " ++ resourceType this ++ " gagal: "
         ++ Z_toString (status response) ++ " " ++ text response).

(** The request each operation of the builder sends. *)
Definition resource_request (url method token contentType : string)
    (body : option string) : Request :=
  {| url := url; method := method;
     headers := [("Authorization", "Bearer " ++ token);
                 ("Content-Type", contentType)];
     body := body |}.

(** The requests a call added to the log. *)
Definition added (before after : World) : list Request :=
  skipn (List.length (sent before)) (sent after).

(** The four operations of the builder, with their arguments. *)
Inductive operation : Type :=
| Get (params : option FhirGetParams)
| Post (body : json number)
| Put (params : FhirPutParams) (body : json number)
| Patch (params : FhirPutParams) (operations : list (json number)).

Definition perform (this : FhirResourceBuilder) (op : operation) : M (json number) :=
  match op with
  | Get params => get this params
  | Post body => post this body
  | Put params body => put this params body
  | Patch params operations => patch this params operations
  end.

Definition verb (op : operation) : string :=
  match op with
  | Get _ => "GET"
  | Post _ => "POST"
  | Put _ _ => "PUT"
  | Patch _ _ => "PATCH"
  end.

(** GET, POST and PUT announce plain JSON, PATCH a JSON Patch document. *)
Definition content_type (op : operation) : string :=
  match op with
  | Patch _ _ => "application/json-patch+json"
  | _ => "application/json"
  end.

(** What goes in the body: nothing for GET, the serialized resource for
    POST and PUT, the serialized sequence of operations for PATCH. *)
Definition payload (op : operation) : option string :=
  match op with
  | Get _ => None
  | Post body | Put _ body => Some (JSON_stringify body)
  | Patch _ operations => Some (JSON_stringify (JArr operations))
  end.

Definition target (this : FhirResourceBuilder) (op : operation) : string :=
  match op with
  | Get None => buildUrl this None None
  | Get (Some p) => buildUrl this (pathParams p) (queryParams p)
  | Post _ => buildUrl this None None
  | Put params _ | Patch params _ => buildUrl this (Some (put_pathParams params)) None
  end.

(** The body of a failed response is a structured outcome [v]: it parses,
    and the [resourceType] of what it parses to is ['OperationOutcome']. *)
Definition outcome_body (response : Response) (v : json number) : Prop :=
  JSON_parse (text response) = Some v
  /\ prop v "resourceType" = Some (JStr "OperationOutcome").

(** The message drawn from an outcome converts to the string [m]. *)
Definition message_text (v : json number) (m : string) : Prop :=
  exists message, outcome_message v = inr message /\ ToString message = inr m.

(** The request of [byName]. *)
Definition byName_request (this : OrganizationService) (name token : string) : Request :=
  {| url := org_baseUrl this ++ "/" ++ org_resourceType this
            ++ "?name=" ++ encodeURIComponent name;
     method := "GET";
     headers := [("Authorization", "Bearer " ++ token)];
     body := None |}.

End Spec.

(** ** A concrete platform and concrete exchanges

    Integers as JSON numbers, a serializer for them, and a [JSON.parse] that
    knows the response bodies used below; everything else is a syntax
    error to it. *)

Module Demo.

Definition dq : string := String (ascii_of_nat 34) EmptyString.

Definition q (s : string) : string := dq ++ s ++ dq.

Definition hex_lower (n : N) : ascii :=
  if (n <? 10)%N then ascii_of_N (48 + n) else ascii_of_N (87 + n).

Definition escape (c : ascii) : string :=
  if (code c =? 34)%N then "\" ++ dq
  else if (code c =? 92)%N then "\\"
  else if (code c =? 8)%N then "\b"
  else if (code c =? 9)%N then "\t"
  else if (code c =? 10)%N then "\n"
  else if (code c =? 12)%N then "\f"
  else if (code c =? 13)%N then "\r"
  else if (code c <? 32)%N
       then "\u00" ++ String (hex_lower (code c / 16))
                        (String (hex_lower (code c mod 16)) EmptyString)
       else String c EmptyString.

Definition quote (s : string) : string := dq ++ encode_with escape s ++ dq.

Fixpoint stringify (v : json Z) : string :=
  match v with
  | JNull => "null"
  | JBool true => "true"
  | JBool false => "false"
  | JNum n => Z_toString n
  | JStr s => quote s
  | JArr items =>
      "[" ++ (fix elements (l : list (json Z)) : string :=
                match l with
                | [] => ""
                | [x] => stringify x
                | x :: r => stringify x ++ "," ++ elements r
                end) items ++ "]"
  | JObj props =>
      "{" ++ (fix members (l : list (string * json Z)) : string :=
                match l with
                | [] => ""
                | [kv] => quote (fst kv) ++ ":" ++ stringify (snd kv)
                | kv :: r => quote (fst kv) ++ ":" ++ stringify (snd kv)
                             ++ "," ++ members r
                end) props ++ "}"
  end.

Definition token_data : json Z :=
  JObj [("access_token", JStr "tok-1");
        ("expires_in", JStr "3599");
        ("issued_at", JStr "1661835069462")].

Definition not_found : json Z :=
  JObj [("resourceType", JStr "OperationOutcome");
        ("issue", JArr [JObj [("severity", JStr "error");
                              ("diagnostics", JStr "not found")]])].

(** An outcome whose diagnostics is an object with a member [toString]. *)
Definition unprintable : json Z :=
  JObj [("resourceType", JStr "OperationOutcome");
        ("issue", JArr [JObj [("diagnostics", JObj [("toString", JNull)])]])].

Definition patient : json Z :=
  JObj [("resourceType", JStr "Patient"); ("id", JStr "123");
        ("name", JArr [JObj [("text", JStr "Jane Smith")]])].

Definition rename : list (json Z) :=
  [JObj [("op", JStr "replace"); ("path", JStr "/name/0/text");
         ("value", JStr "New Name")]].

Definition parse (s : string) : option (json Z) :=
  if String.eqb s (stringify token_data) then Some token_data
  else if String.eqb s (stringify not_found) then Some not_found
  else if String.eqb s (stringify unprintable) then Some unprintable
  else if String.eqb s (stringify patient) then Some patient
  else None.

Definition platform : Platform :=
  {| number := Z;
     Number_toString := Z_toString;
     JSON_parse := parse;
     JSON_stringify := stringify |}.

Definition credentials : OAuth (P := platform) :=
  new_OAuth "client-id" "client-secret" development.

(** A world whose token [tok] expires at [e]. *)
Definition holding (tok : string) (e : Z) : World (P := platform) :=
  {| oauth := with_tokenState credentials
                (Some {| accessToken := Some (JStr tok); expiresAt := Int e |});
     sent := [] |}.

Definition empty_handed : World (P := platform) :=
  {| oauth := credentials; sent := [] |}.

(** The clock reads [t]; the token endpoint answers [token_reply], every
    other address [resource_reply]. *)
Definition env (t : Z) (token_reply resource_reply : option Response) : Env :=
  {| Date_now := t;
     fetch_reply := fun r =>
       if String.eqb (url r) (url (token_request credentials))
       then token_reply else resource_reply |}.

Definition reply (status : Z) (text : string) : option Response :=
  Some {| status := status; text := text |}.

Definition patients : FhirResourceBuilder :=
  {| baseUrl := "https://x/fhir"; resourceType := "Patient" |}.

Definition organizations : OrganizationService :=
  new_OrganizationService "https://x/fhir".

End Demo.

(** ** The client's own methods *)

Section ClientMethods.
Context {P : Platform}.

(** [SatusehatClient.getAccessToken] and [SatusehatClient.clearToken] hand
    over to the [OAuth] object the client was built with. *)
Definition client_getAccessToken (this : SatusehatClient) : M jsval :=
  getAccessToken.

Definition client_clearToken (this : SatusehatClient) : M unit :=
  clearToken.

(** A request that presents a bearer token. *)
Definition authenticated (q : Request) : Prop :=
  exists tok rest, headers q = ("Authorization", "Bearer " ++ tok) :: rest.

(** One call on a client, and what a sequence of calls, each under the
    environment of its moment, makes of the world. *)
Inductive call : Type :=
| CallFhir (resourceType : string) (op : operation)
| CallById (id : string)
| CallByName (name : string)
| CallGetAccessToken
| CallClearToken.

Definition run_call (this : SatusehatClient) (c : call) (env : Env)
    (w : World) : World :=
  match c with
  | CallFhir resourceType op => snd (perform (fhir this resourceType) op env w)
  | CallById id => snd (byId (organization this) id env w)
  | CallByName name => snd (byName (organization this) name env w)
  | CallGetAccessToken => snd (client_getAccessToken this env w)
  | CallClearToken => snd (client_clearToken this env w)
  end.

Fixpoint run_calls (this : SatusehatClient) (calls : list (call * Env))
    (w : World) : World :=
  match calls with
  | [] => w
  | (c, env) :: rest => run_calls this rest (run_call this c env w)
  end.

End ClientMethods.

(** ** Reading a URL back

    What the receiving side does with the text the SDK builds: percent
    decoding of a path segment, and the application/x-www-form-urlencoded
    parser on a query string or a form body. *)

Definition hex_value (c : ascii) : N :=
  if is_digit c then (code c - 48)%N
  else if in_range 65 70 c then (code c - 55)%N
  else if in_range 97 102 c then (code c - 87)%N
  else 0%N.

Definition is_hex (c : ascii) : bool :=
  is_digit c || in_range 65 70 c || in_range 97 102 c.

Definition decode_byte (h l : ascii) : ascii :=
  ascii_of_N (16 * hex_value h + hex_value l).

(** [%XY] with two hexadecimal digits becomes the byte it names; anything
    else stays. *)
Fixpoint percent_decode (s : string) : string :=
  match s with
  | EmptyString => EmptyString
  | String c r =>
      if Ascii.eqb c "%" then
        match r with
        | String h (String l r') =>
            if is_hex h && is_hex l
            then String (decode_byte h l) (percent_decode r')
            else String c (percent_decode r)
        | _ => String c (percent_decode r)
        end
      else String c (percent_decode r)
  end.

(** As [percent_decode], and [+] becomes a space. *)
Fixpoint form_decode (s : string) : string :=
  match s with
  | EmptyString => EmptyString
  | String c r =>
      if Ascii.eqb c "+" then String " " (form_decode r)
      else if Ascii.eqb c "%" then
        match r with
        | String h (String l r') =>
            if is_hex h && is_hex l
            then String (decode_byte h l) (form_decode r')
            else String c (form_decode r)
        | _ => String c (form_decode r)
        end
      else String c (form_decode r)
  end.

(** The pieces between occurrences of [sep]; always at least one piece. *)
Fixpoint split_on (sep : ascii) (s : string) : list string :=
  match s with
  | EmptyString => [EmptyString]
  | String c r =>
      if Ascii.eqb c sep then EmptyString :: split_on sep r
      else match split_on sep r with
           | piece :: rest => String c piece :: rest
           | [] => [String c EmptyString]
           end
  end.

(** Name and value of one piece: around its first [=]. *)
Fixpoint split_pair (s : string) : string * string :=
  match s with
  | EmptyString => (EmptyString, EmptyString)
  | String c r =>
      if Ascii.eqb c "=" then (EmptyString, r)
      else let '(k, v) := split_pair r in (String c k, v)
  end.

Definition nonempty (s : string) : bool :=
  match s with EmptyString => false | _ => true end.

(** The form parser: split at [&], drop empty pieces, split each piece at
    its first [=], decode both sides. *)
Definition parse_query (s : string) : list (string * string) :=
  map (fun piece => let '(k, v) := split_pair piece in
                    (form_decode k, form_decode v))
      (filter nonempty (split_on "&" s)).

(** Every byte of [s] passes [f]. *)
Fixpoint every (f : ascii -> bool) (s : string) : bool :=
  match s with
  | EmptyString => true
  | String c r => f c && every f r
  end.

(** The bytes [encodeURIComponent] and the form serializer render alike:
    all but the space and the marks [! ~ ' ( )]. *)
Definition rendered_alike (c : ascii) : bool :=
  negb (one_of [" "; "!"; "~"; "'"; "("; ")"]%char c).

(** [c] occurs in [s]. *)
Fixpoint occurs (c : ascii) (s : string) : bool :=
  match s with
  | EmptyString => false
  | String d r => Ascii.eqb d c || occurs c r
  end.

(** ** A second platform

    Its [JSON.parse] also knows a token reply without expiry information
    and the text [null]. *)

Module Scenario.

Definition bare_token : json Z := JObj [("access_token", JStr "tok-2")].

Definition parse (s : string) : option (json Z) :=
  if String.eqb s (Demo.stringify bare_token) then Some bare_token
  else if String.eqb s "null" then Some JNull
  else if String.eqb s "{}" then Some (JObj [])
  else Demo.parse s.

Definition platform : Platform :=
  {| number := Z;
     Number_toString := Z_toString;
     JSON_parse := parse;
     JSON_stringify := Demo.stringify |}.

Definition config : SatusehatConfig :=
  {| cfg_clientId := "id&x=1";
     cfg_clientSecret := "s3cr3t key";
     cfg_environment := production |}.

Definition client : SatusehatClient :=
  fst (new_SatusehatClient (P := platform) config).

(** The world right after the client is built. *)
Definition fresh : World (P := platform) :=
  snd (new_SatusehatClient (P := platform) config).

(** The same world, holding token [tok] that expires at [e]. *)
Definition holding (tok : string) (e : Z) : World (P := platform) :=
  {| oauth := with_tokenState (oauth fresh)
                (Some {| accessToken := Some (JStr tok); expiresAt := Int e |});
     sent := [] |}.

(** The clock reads [t]; the token endpoint answers [token_reply], every
    other address [resource_reply]. *)
Definition env (t : Z) (token_reply resource_reply : option Response) : Env :=
  {| Date_now := t;
     fetch_reply := fun r =>
       if String.eqb (url r) (url (token_request (oauth fresh)))
       then token_reply else resource_reply |}.

End Scenario.

Unset Implicit Arguments.

(** * Properties *)

Example unprintable_text :
  Demo.stringify Demo.unprintable
  = "{" ++ Demo.q "resourceType" ++ ":" ++ Demo.q "OperationOutcome" ++ ","
    ++ Demo.q "issue" ++ ":[{" ++ Demo.q "diagnostics" ++ ":{"
    ++ Demo.q "toString" ++ ":null}}]}".
Proof. reflexivity. Qed.

Example not_found_text :
  Demo.stringify Demo.not_found
  = "{" ++ Demo.q "resourceType" ++ ":" ++ Demo.q "OperationOutcome" ++ ","
    ++ Demo.q "issue" ++ ":[{" ++ Demo.q "severity" ++ ":" ++ Demo.q "error"
    ++ "," ++ Demo.q "diagnostics" ++ ":" ++ Demo.q "not found" ++ "}]}".
Proof. reflexivity. Qed.

(** ** Numerals *)

Lemma digit_cases (c : ascii) :
  is_digit c = true ->
  In c ["0"; "1"; "2"; "3"; "4"; "5"; "6"; "7"; "8"; "9"]%char.
Proof.
  destruct c as [[] [] [] [] [] [] [] []]; vm_compute; intros H;
    try discriminate H; tauto.
Qed.

Lemma trim_start_digit (c : ascii) (r : string) :
  is_digit c = true -> trim_start (String c r) = String c r.
Proof.
  intros H. apply digit_cases in H. simpl in H.
  repeat (destruct H as [<- | H];
          [ destruct r as [|b [|d r]]; reflexivity | ]).
  contradiction.
Qed.

Lemma take_digits_all (s : string) :
  all_digits s = true -> take_digits s = s.
Proof.
  induction s as [|c r IH]; simpl; [reflexivity|].
  intros H. apply andb_true_iff in H as [Hc Hr].
  rewrite Hc, IH; auto.
Qed.

Lemma digits_to_Z_value (s : string) (acc : Z) :
  digits_to_Z acc s = acc * 10 ^ Z.of_nat (String.length s) + decimal_value s.
Proof.
  revert acc. induction s as [|c r IH]; intros acc; cbn [digits_to_Z].
  - simpl. lia.
  - rewrite IH. cbn [String.length decimal_value].
    rewrite Nat2Z.inj_succ, Z.pow_succ_r by lia.
    ring.
Qed.

Lemma decimal_value_nonneg (s : string) : 0 <= decimal_value s.
Proof.
  induction s as [|c r IH]; simpl; [lia|].
  assert (0 <= digit_value c) by (unfold digit_value; lia).
  assert (0 <= 10 ^ Z.of_nat (String.length r)) by (apply Z.pow_nonneg; lia).
  nia.
Qed.

(** Below [2 ^ 53] rounding changes nothing. *)
Lemma to_double_exact (z : Z) : 0 <= z < 2 ^ 53 -> to_double z = z.
Proof.
  intros [H0 H1]. unfold to_double, round_magnitude.
  rewrite (Z.abs_eq z H0). fold two53 in H1.
  rewrite (proj2 (Z.ltb_lt z two53) H1).
  destruct z; simpl; try reflexivity; lia.
Qed.

(** On a decimal numeral below [2 ^ 53], [parseInt] yields the number it
    denotes. *)
Lemma parseInt_decimal (s : string) :
  is_decimal s -> decimal_value s < 2 ^ 53 ->
  parseInt s = Int (decimal_value s).
Proof.
  intros [Hne Hall] Hb. pose proof (decimal_value_nonneg s) as Hpos.
  destruct s as [|c r]; [congruence|].
  cbn [all_digits] in Hall. apply andb_true_iff in Hall as [Hc Hr].
  unfold parseInt. rewrite (trim_start_digit c r Hc).
  assert (Hsign : (match String c r with
                   | String "-" t => (-1, t)
                   | String "+" t => (1, t)
                   | _ => (1, String c r)
                   end) = (1, String c r)).
  { pose proof (digit_cases c Hc) as H. simpl in H.
    repeat (destruct H as [<- | H]; [reflexivity|]). contradiction. }
  rewrite Hsign.
  cbn [take_digits]. rewrite Hc, (take_digits_all r Hr).
  rewrite digits_to_Z_value.
  replace (1 * (0 * 10 ^ Z.of_nat (String.length (String c r))
                + decimal_value (String c r)))
    with (decimal_value (String c r)) by lia.
  now rewrite to_double_exact by lia.
Qed.

(** The sum the token state is built from, when it stays below [2 ^ 53]. *)
Lemma expiry_exact (issued_at expires_in : string) :
  is_decimal issued_at -> is_decimal expires_in ->
  decimal_value issued_at + decimal_value expires_in * 1000 < 2 ^ 53 ->
  num_add (parseInt issued_at) (num_mul (parseInt expires_in) (Int 1000))
  = Int (decimal_value issued_at + decimal_value expires_in * 1000).
Proof.
  intros Di De Hb.
  pose proof (decimal_value_nonneg issued_at) as Hi.
  pose proof (decimal_value_nonneg expires_in) as He.
  rewrite (parseInt_decimal _ Di), (parseInt_decimal _ De) by lia.
  assert (Hfin : forall z, 0 <= z < 2 ^ 53 -> is_infinite z = false).
  { intros z Hz. unfold is_infinite, infinity. apply Z.leb_gt.
    rewrite Z.abs_eq by lia.
    assert (2 ^ 53 < 2 ^ 1024) by (apply Z.pow_lt_mono_r; lia). lia. }
  unfold num_mul. rewrite (Hfin (decimal_value expires_in)) by lia.
  rewrite (Hfin 1000) by lia. cbn [orb].
  rewrite to_double_exact by lia.
  unfold num_add. rewrite (Hfin (decimal_value issued_at)) by lia.
  rewrite (Hfin (decimal_value expires_in * 1000)) by lia. cbn [andb].
  now rewrite to_double_exact by lia.
Qed.

(** ** The token manager *)

Section OAuthProperties.
Context {P : Platform}.

Lemma isTokenValid_run (env : Env) (w : World) :
  isTokenValid env w =
  (inr match tokenState (oauth w) with
       | None => false
       | Some ts => num_ltb (Int (Date_now env))
                            (num_sub (expiresAt ts) (Int (TOKEN_EXPIRY_BUFFER * 1000)))
       end, w).
Proof.
  unfold isTokenValid, bind, this_oauth, now, ret.
  destruct (tokenState (oauth w)); reflexivity.
Qed.

Lemma reusable_true (env : Env) (w : World) :
  reusable (Date_now env) (oauth w) ->
  exists ts, tokenState (oauth w) = Some ts
             /\ isTokenValid env w = (inr true, w).
Proof.
  intros (ts & e & Hts & He & Hlt). exists ts. split; [exact Hts|].
  rewrite isTokenValid_run, Hts, He. simpl.
  replace (Date_now env <? e - 60000) with true; [reflexivity|].
  symmetry. apply Z.ltb_lt. lia.
Qed.

Lemma not_reusable_false (env : Env) (w : World) :
  ~ reusable (Date_now env) (oauth w) ->
  isTokenValid env w = (inr false, w).
Proof.
  intros H. rewrite isTokenValid_run.
  destruct (tokenState (oauth w)) as [ts|] eqn:Hts; [|reflexivity].
  destruct (expiresAt ts) as [|e] eqn:He; [reflexivity|]. simpl.
  destruct (Z.ltb_spec (Date_now env) (e - 60000)) as [Hlt|Hge]; [|reflexivity].
  exfalso. apply H. exists ts, e. repeat split; auto.
Qed.

(** Whatever the reply, [fetchToken] sends the token request, once. *)
Lemma fetchToken_sent (env : Env) (w : World) :
  sent (snd (fetchToken env w)) = (sent w ++ [token_request (oauth w)])%list.
Proof.
  unfold fetchToken, bind, this_oauth, fetch, response_json, lift,
    set_tokenState, throw, ret.
  destruct (fetch_reply env (token_request (oauth w))) as [r|]; [|reflexivity].
  destruct (ok r); simpl; [|reflexivity].
  destruct (JSON_parse (text r)) as [data|]; [|reflexivity].
  destruct (member data "expires_in") as [|v1]; [reflexivity|].
  destruct (ToString v1) as [|s1]; [reflexivity|].
  destruct (member data "issued_at") as [|v2]; [reflexivity|].
  destruct (ToString v2) as [|s2]; [reflexivity|].
  destruct (member data "access_token") as [|v3]; reflexivity.
Qed.

Lemma getAccessToken_reuse (env : Env) (w : World) (ts : TokenState) :
  tokenState (oauth w) = Some ts ->
  isTokenValid env w = (inr true, w) ->
  getAccessToken env w = (inr (accessToken ts), w).
Proof.
  intros Hts Hv. unfold getAccessToken, bind. rewrite Hv.
  unfold cached_accessToken, bind, this_oauth, ret. rewrite Hts. reflexivity.
Qed.

Lemma getAccessToken_refresh (env : Env) (w : World) :
  isTokenValid env w = (inr false, w) ->
  getAccessToken env w =
  match fetchToken env w with
  | (inl e, w') => (inl e, w')
  | (inr _, w') => cached_accessToken env w'
  end.
Proof.
  intros Hv. unfold getAccessToken, bind at 1. rewrite Hv.
  unfold bind. reflexivity.
Qed.

Lemma cached_accessToken_world (env : Env) (w : World) :
  snd (cached_accessToken env w) = w.
Proof.
  unfold cached_accessToken, bind, this_oauth, ret, throw.
  destruct (tokenState (oauth w)); reflexivity.
Qed.

Lemma getAccessToken_refresh_sent (env : Env) (w : World) :
  isTokenValid env w = (inr false, w) ->
  sent (snd (getAccessToken env w)) = (sent w ++ [token_request (oauth w)])%list.
Proof.
  intros Hv. rewrite (getAccessToken_refresh _ _ Hv).
  pose proof (fetchToken_sent env w) as Hs.
  destruct (fetchToken env w) as [[e|u] w']; simpl in *; [exact Hs|].
  rewrite cached_accessToken_world. exact Hs.
Qed.

End OAuthProperties.

Section TokenLifecycle.
Context {P : Platform}.

(** C1.  Every call of [getAccessToken]: when a token state is present and
    the clock reads less than [expiresAt - 60 * 1000], the call returns the
    cached [accessToken] and leaves the world as it was, so nothing is
    fetched; in every other case (no token state, or an expiry that is not
    that far ahead) the call sends the token request.  With
    [expiresAt = now + 61000] nothing is fetched, with
    [expiresAt = now + 59000] the token is fetched. *)
Theorem getAccessToken_reuses_or_fetches (env : Env) (w : World) :
  (reusable (Date_now env) (oauth w) ->
     exists ts, tokenState (oauth w) = Some ts
                /\ getAccessToken env w = (inr (accessToken ts), w))
  /\ (~ reusable (Date_now env) (oauth w) ->
        sent (snd (getAccessToken env w))
        = (sent w ++ [token_request (oauth w)])%list)
  /\ (forall ts, tokenState (oauth w) = Some ts ->
        (expiresAt ts = Int (Date_now env + 61000) ->
           getAccessToken env w = (inr (accessToken ts), w))
        /\ (expiresAt ts = Int (Date_now env + 59000) ->
              sent (snd (getAccessToken env w))
              = (sent w ++ [token_request (oauth w)])%list)).
Proof.
  split; [|split].
  - intros H. destruct (reusable_true _ _ H) as (ts & Hts & Hv).
    exists ts. split; [exact Hts|]. now apply getAccessToken_reuse.
  - intros H. apply getAccessToken_refresh_sent. now apply not_reusable_false.
  - intros ts Hts. split; intros He.
    + apply getAccessToken_reuse; [exact Hts|].
      rewrite isTokenValid_run, Hts, He. simpl.
      replace (Date_now env <? Date_now env + 61000 - 60000) with true;
        [reflexivity|]. symmetry. apply Z.ltb_lt. lia.
    + apply getAccessToken_refresh_sent.
      rewrite isTokenValid_run, Hts, He. simpl.
      replace (Date_now env <? Date_now env + 59000 - 60000) with false;
        [reflexivity|]. symmetry. apply Z.ltb_ge. lia.
Qed.

(** [fetchToken] on a 2xx reply whose body decodes to an object with
    string fields holding decimal numerals. *)
Lemma fetchToken_run (env : Env) (w : World) (response : Response)
    (data : json number) (access_token expires_in issued_at : string) :
  fetch_reply env (token_request (oauth w)) = Some response ->
  ok response = true ->
  JSON_parse (text response) = Some data ->
  prop data "access_token" = Some (JStr access_token) ->
  prop data "expires_in" = Some (JStr expires_in) ->
  prop data "issued_at" = Some (JStr issued_at) ->
  fetchToken env w =
  (inr tt,
   {| oauth := with_tokenState (oauth w)
                 (Some {| accessToken := Some (JStr access_token);
                          expiresAt := num_add (parseInt issued_at)
                                         (num_mul (parseInt expires_in) (Int 1000)) |});
      sent := (sent w ++ [token_request (oauth w)])%list |}).
Proof.
  intros Hf Hok Hp Ha He Hi.
  unfold fetchToken, bind, this_oauth, fetch, response_json.
  rewrite Hf, Hok. cbn [negb]. rewrite Hp. unfold ret at 1.
  assert (Hm : forall k v, prop data k = Some v -> member data k = inr (Some v)).
  { intros k v Hk. destruct data; simpl in *; try discriminate.
    now rewrite Hk. }
  rewrite (Hm _ _ He), (Hm _ _ Hi), (Hm _ _ Ha). reflexivity.
Qed.

(** C4.  A successful token fetch whose response carries the string fields
    [access_token], [expires_in] (decimal seconds) and [issued_at] (decimal
    epoch milliseconds) replaces the token state by
    [{ accessToken = access_token; expiresAt = issued_at + expires_in * 1000 }],
    whatever it was before, and [getAccessToken] returns that
    [access_token].  The sum is the one of the integers the two numerals
    denote as long as it stays below [2 ^ 53], where the doubles the code
    computes with are exact. *)
Theorem fetchToken_stores_decoded_state (env : Env) (w : World)
    (response : Response) (data : json number)
    (access_token expires_in issued_at : string) :
  fetch_reply env (token_request (oauth w)) = Some response ->
  ok response = true ->
  JSON_parse (text response) = Some data ->
  prop data "access_token" = Some (JStr access_token) ->
  prop data "expires_in" = Some (JStr expires_in) ->
  prop data "issued_at" = Some (JStr issued_at) ->
  is_decimal expires_in ->
  is_decimal issued_at ->
  decimal_value issued_at + decimal_value expires_in * 1000 < 2 ^ 53 ->
  let stored :=
    {| accessToken := Some (JStr access_token);
       expiresAt := Int (decimal_value issued_at + decimal_value expires_in * 1000) |} in
  let w' :=
    {| oauth := with_tokenState (oauth w) (Some stored);
       sent := (sent w ++ [token_request (oauth w)])%list |} in
  fetchToken env w = (inr tt, w')
  /\ (~ reusable (Date_now env) (oauth w) ->
        getAccessToken env w = (inr (Some (JStr access_token)), w')).
Proof.
  intros Hf Hok Hp Ha He Hi De Di Hb stored w'.
  assert (Hrun : fetchToken env w = (inr tt, w')).
  { rewrite (fetchToken_run _ _ _ _ _ _ _ Hf Hok Hp Ha He Hi).
    rewrite (expiry_exact _ _ Di De Hb). reflexivity. }
  split; [exact Hrun|].
  intros Hn. rewrite (getAccessToken_refresh _ _ (not_reusable_false _ _ Hn)), Hrun.
  reflexivity.
Qed.

(** C5, as the code has it.  When the token endpoint answers with a status
    outside 2xx, [getAccessToken] fails with a plain [Error] whose message
    is [Failed to fetch access token: {status} {body}]: the status and the
    raw body are carried by the message.  The request was sent once, and
    the [OAuth] object, its token state included, is what it was. *)
Theorem getAccessToken_rejected (env : Env) (w : World) (response : Response) :
  ~ reusable (Date_now env) (oauth w) ->
  fetch_reply env (token_request (oauth w)) = Some response ->
  ok response = false ->
  getAccessToken env w =
  (inl (Error ("Failed to fetch access token: "
               ++ Z_toString (status response) ++ " " ++ text response)),
   after_request w (token_request (oauth w))).
Proof.
  intros Hn Hf Hok.
  rewrite (getAccessToken_refresh _ _ (not_reusable_false _ _ Hn)).
  unfold fetchToken, bind, this_oauth, fetch. rewrite Hf, Hok. reflexivity.
Qed.

(** C6.  [clearToken] sets the token state to absent and keeps the client
    id, the client secret and the auth URL; it sends nothing and does not
    depend on the environment; and whatever the state was, the next
    [getAccessToken] sends the token request. *)
Theorem clearToken_forces_fetch (env env' : Env) (w : World) :
  let w' := {| oauth := with_tokenState (oauth w) None; sent := sent w |} in
  clearToken env w = (inr tt, w')
  /\ clearToken env' w = clearToken env w
  /\ tokenState (oauth w') = None
  /\ clientId (oauth w') = clientId (oauth w)
  /\ clientSecret (oauth w') = clientSecret (oauth w)
  /\ authUrl (oauth w') = authUrl (oauth w)
  /\ sent w' = sent w
  /\ sent (snd (getAccessToken env' w'))
     = (sent w ++ [token_request (oauth w')])%list.
Proof.
  cbv zeta. repeat split.
  rewrite getAccessToken_refresh_sent; [reflexivity|].
  exact (isTokenValid_run env' _).
Qed.

End TokenLifecycle.

(** ** The resource builder: URLs *)

Lemma append_assoc (a b c : string) : ((a ++ b) ++ c = a ++ (b ++ c))%string.
Proof. induction a as [|x a IH]; simpl; [reflexivity | now rewrite IH]. Qed.

Lemma append_empty_r (a : string) : (a ++ "" = a)%string.
Proof. induction a as [|x a IH]; simpl; [reflexivity | now rewrite IH]. Qed.

Section UrlProperties.
Context {P : Platform}.

Lemma fold_append_items (key : string) (items : list string) (sp : URLSearchParams) :
  fold_left (fun sp v => append sp key v) items sp
  = (sp ++ map (fun v => (key, v)) items)%list.
Proof.
  revert sp. induction items as [|v items IH]; intros sp; simpl.
  - now rewrite app_nil_r.
  - rewrite IH. unfold append. now rewrite <- app_assoc.
Qed.

Lemma append_entry_occurrences (sp : URLSearchParams) (entry : string * qvalue) :
  append_entry sp entry = (sp ++ occurrences entry)%list.
Proof.
  destruct entry as [key [s|items|n|b]]; unfold append_entry, occurrences, append;
    simpl; try reflexivity.
  apply fold_append_items.
Qed.

(** The calls to [append] leave one occurrence per scalar and one per
    element of a list, entry after entry, element after element. *)
Lemma fold_append_entry (q : QueryParams) (sp : URLSearchParams) :
  fold_left append_entry q sp = (sp ++ flat_map occurrences q)%list.
Proof.
  revert sp. induction q as [|entry q IH]; intros sp; simpl.
  - now rewrite app_nil_r.
  - rewrite IH, append_entry_occurrences. now rewrite <- app_assoc.
Qed.

(** C3, as the code has it.  The target URL is [{baseUrl}/{resourceType}],
    followed by [/{encodeURIComponent(id)}] exactly when an id is supplied
    and is not the empty string, and by [?] and the query string exactly
    when a mapping with at least one entry is supplied; the query string
    holds one occurrence per scalar and one per element of a list, under
    the same name, in the order given.  So [read(id = "123")] on
    ["Patient"] under ["https://x/fhir"] targets
    [https://x/fhir/Patient/123], and the query
    [{name: "John", tag: ["a", "b"]}] gives
    [https://x/fhir/Patient?name=John&tag=a&tag=b]. *)
Theorem buildUrl_shape (this : FhirResourceBuilder)
    (id : option string) (query : option QueryParams) :
  buildUrl this id query
  = (baseUrl this ++ "/" ++ resourceType this
     ++ match id with
        | Some (String c r) => "/" ++ encodeURIComponent (String c r)
        | _ => ""
        end
     ++ match query with
        | Some (entry :: q) =>
            "?" ++ URLSearchParams_toString (flat_map occurrences (entry :: q))
        | _ => ""
        end)%string
  /\ buildUrl {| baseUrl := "https://x/fhir"; resourceType := "Patient" |}
       (Some "123") None
     = "https://x/fhir/Patient/123"
  /\ buildUrl {| baseUrl := "https://x/fhir"; resourceType := "Patient" |}
       None (Some [("name", QString "John"); ("tag", QArray ["a"; "b"])])
     = "https://x/fhir/Patient?name=John&tag=a&tag=b".
Proof.
  split; [|split; reflexivity].
  unfold buildUrl.
  assert (Hid : match id with
                | Some p => if truthy id
                            then ((baseUrl this ++ "/" ++ resourceType this)
                                  ++ "/" ++ encodeURIComponent p)%string
                            else (baseUrl this ++ "/" ++ resourceType this)%string
                | None => (baseUrl this ++ "/" ++ resourceType this)%string
                end
                = ((baseUrl this ++ "/" ++ resourceType this)
                   ++ match id with
                      | Some (String c r) => "/" ++ encodeURIComponent (String c r)
                      | _ => ""
                      end)%string).
  { destruct id as [[|c r]|]; simpl truthy; cbv iota;
      now rewrite ?append_empty_r. }
  rewrite Hid. clear Hid.
  destruct query as [[|entry q]|]; cbn [List.length Nat.ltb Nat.leb].
  - now rewrite append_empty_r, !append_assoc.
  - rewrite fold_append_entry. cbn [app]. now rewrite !append_assoc.
  - now rewrite append_empty_r, !append_assoc.
Qed.

End UrlProperties.

(** C3 as worded puts [/] after the resource type for an empty id and [?]
    for an empty mapping; the builder adds neither. *)
Lemma buildUrl_empty_id_or_mapping :
  buildUrl (P := Demo.platform) Demo.patients (Some "") None
    = "https://x/fhir/Patient"
  /\ spec_url (P := Demo.platform) Demo.patients (Some "") None
     = "https://x/fhir/Patient/"
  /\ buildUrl (P := Demo.platform) Demo.patients None (Some [])
     = "https://x/fhir/Patient"
  /\ spec_url (P := Demo.platform) Demo.patients None (Some [])
     = "https://x/fhir/Patient?"
  /\ ~ (forall this id query,
          buildUrl (P := Demo.platform) this id query = spec_url this id query).
Proof.
  repeat split. intros H.
  specialize (H Demo.patients (Some ""%string) None). discriminate H.
Qed.

(** ** The resource builder: errors *)

Section ErrorProperties.
Context {P : Platform}.

Lemma opt_member_prop (v : json number) (k : string) :
  opt_member (Some v) k = prop v k.
Proof. destruct v; reflexivity. Qed.

Lemma is_OperationOutcome_spec (v : json number) :
  is_OperationOutcome v = true
  <-> prop v "resourceType" = Some (JStr "OperationOutcome").
Proof.
  unfold is_OperationOutcome. rewrite opt_member_prop.
  destruct (prop v "resourceType") as [[| | |s| |]|]; split; intros H;
    try discriminate H.
  - apply String.eqb_eq in H. now subst.
  - injection H as ->. reflexivity.
Qed.

Lemma outcome_message_run (operationOutcome : json number) :
  operationOutcome <> JNull ->
  outcome_message operationOutcome
  = inr (nullish_or (nullish_or (issue_diagnostics operationOutcome)
                                (issue_details_text operationOutcome))
                    (Some (JStr fallback_message))).
Proof.
  intros H. unfold outcome_message, issue_diagnostics, issue_details_text,
    first_issue.
  destruct operationOutcome; try reflexivity. congruence.
Qed.

Lemma nullish_or_absent (a b : jsval) : absent a -> nullish_or a b = b.
Proof. intros [-> | ->]; reflexivity. Qed.

Lemma nullish_or_present (d : json number) (b : jsval) :
  d <> JNull -> nullish_or (Some d) b = Some d.
Proof. destruct d; [congruence | reflexivity ..]. Qed.

Lemma ToString_inr (d : json number) (m : string) :
  ToString (Some d) = inr m -> ToString_json d = Some m.
Proof. unfold ToString. destruct (ToString_json d); congruence. Qed.

(** C7.  The message of a [FhirOperationOutcomeError] built from a decoded
    outcome is the diagnostics text of the first issue when there is one,
    else the text of that issue's details when there is one, else the fixed
    fallback; the fallback also when the list of issues is empty or
    missing.  Whatever the payload, an error that gets built carries the
    rendering of the value so chosen. *)
Theorem outcome_error_message (operationOutcome : json number) (status : Z) :
  operationOutcome <> JNull ->
  (forall d, issue_diagnostics operationOutcome = Some (JStr d) ->
     new_FhirOperationOutcomeError operationOutcome status
     = inr (FhirOperationOutcomeError d operationOutcome status))
  /\ (forall t, absent (issue_diagnostics operationOutcome) ->
        issue_details_text operationOutcome = Some (JStr t) ->
        new_FhirOperationOutcomeError operationOutcome status
        = inr (FhirOperationOutcomeError t operationOutcome status))
  /\ (absent (issue_diagnostics operationOutcome) ->
      absent (issue_details_text operationOutcome) ->
      new_FhirOperationOutcomeError operationOutcome status
      = inr (FhirOperationOutcomeError fallback_message operationOutcome status))
  /\ (absent (prop operationOutcome "issue")
      \/ prop operationOutcome "issue" = Some (JArr []) ->
      new_FhirOperationOutcomeError operationOutcome status
      = inr (FhirOperationOutcomeError fallback_message operationOutcome status))
  /\ (forall e, new_FhirOperationOutcomeError operationOutcome status = inr e ->
        exists m, e = FhirOperationOutcomeError m operationOutcome status
          /\ forall d, d <> JNull ->
                (issue_diagnostics operationOutcome = Some d
                 \/ absent (issue_diagnostics operationOutcome)
                    /\ issue_details_text operationOutcome = Some d) ->
                ToString_json d = Some m).
Proof.
  intros Hnn. unfold new_FhirOperationOutcomeError.
  rewrite (outcome_message_run _ Hnn).
  assert (Hnone : absent (issue_diagnostics operationOutcome) ->
                  absent (issue_details_text operationOutcome) ->
                  match
                    ToString (nullish_or
                      (nullish_or (issue_diagnostics operationOutcome)
                                  (issue_details_text operationOutcome))
                      (Some (JStr fallback_message)))
                  with
                  | inl e => inl e
                  | inr m => inr (FhirOperationOutcomeError m operationOutcome status)
                  end
                  = inr (FhirOperationOutcomeError fallback_message
                           operationOutcome status)).
  { intros Hd Ht. rewrite (nullish_or_absent _ _ Hd), (nullish_or_absent _ _ Ht).
    reflexivity. }
  repeat split.
  - intros d Hd. rewrite Hd. reflexivity.
  - intros t Hd Ht. rewrite (nullish_or_absent _ _ Hd), Ht. reflexivity.
  - exact Hnone.
  - intros Hissue. apply Hnone; left;
      unfold issue_diagnostics, issue_details_text, first_issue;
      destruct Hissue as [[-> | ->] | ->]; reflexivity.
  - intros e He.
    destruct (ToString _) as [|m] eqn:Hm in He; [discriminate|].
    injection He as <-. exists m. split; [reflexivity|].
    intros d Hd [Hp | [Ha Hp]].
    + rewrite Hp, !(nullish_or_present _ _ Hd) in Hm.
      now apply ToString_inr.
    + rewrite (nullish_or_absent _ _ Ha), Hp, (nullish_or_present _ _ Hd) in Hm.
      now apply ToString_inr.
Qed.

(** [handleErrorResponse] throws, whatever the response. *)
Lemma handleErrorResponse_run (this : FhirResourceBuilder)
    (response : Response) (method : string) (env : Env) (w : World) :
  handleErrorResponse this response method env w
  = (inl match classify_attempt response with
         | inl (FhirOperationOutcomeError m v s) => FhirOperationOutcomeError m v s
         | _ => request_error this method response
         end, w).
Proof.
  unfold handleErrorResponse, bind, request_error.
  destruct (classify_attempt response) as [[]|[]]; reflexivity.
Qed.

Lemma classify_outcome (response : Response) (v : json number) (m : string) :
  outcome_body response v -> message_text v m ->
  classify_attempt response
  = inl (FhirOperationOutcomeError m v (status response)).
Proof.
  intros [Hp Hr] (message & Hm & Hs). unfold classify_attempt.
  rewrite Hp. apply is_OperationOutcome_spec in Hr. rewrite Hr.
  unfold new_FhirOperationOutcomeError. rewrite Hm, Hs. reflexivity.
Qed.

Lemma new_error_shape (v : json number) (s : Z) (e : exn) :
  new_FhirOperationOutcomeError v s = inr e ->
  exists m, message_text v m /\ e = FhirOperationOutcomeError m v s.
Proof.
  unfold new_FhirOperationOutcomeError, message_text.
  destruct (outcome_message v) as [|message]; [discriminate|].
  destruct (ToString message) as [|m] eqn:Hm; [discriminate|].
  intros [= <-]. exists m. split; [|reflexivity]. now exists message.
Qed.

Lemma new_error_throws (v : json number) (s : Z) (e : exn) :
  new_FhirOperationOutcomeError v s = inl e -> e = TypeError.
Proof.
  unfold new_FhirOperationOutcomeError, outcome_message, member, ToString.
  destruct v; try discriminate; intros H;
    try (destruct (nullish_or _ _) as [x|]; [|discriminate];
         destruct (ToString_json x); [discriminate|]);
    now injection H as <-.
Qed.

Lemma classify_other (this : FhirResourceBuilder) (method : string)
    (response : Response) :
  (forall v m, outcome_body response v -> ~ message_text v m) ->
  match classify_attempt response with
  | inl (FhirOperationOutcomeError m v s) => FhirOperationOutcomeError m v s
  | _ => request_error this method response
  end = request_error this method response.
Proof.
  intros H. unfold classify_attempt.
  destruct (JSON_parse (text response)) as [v|] eqn:Hp; [|reflexivity].
  destruct (is_OperationOutcome v) eqn:Ho; [|reflexivity].
  apply is_OperationOutcome_spec in Ho.
  destruct (new_FhirOperationOutcomeError v (status response)) as [e|e] eqn:Hn.
  - apply new_error_throws in Hn. now subst.
  - apply new_error_shape in Hn as (m & Hm & _).
    exfalso. apply (H v m); [split; assumption | exact Hm].
Qed.

End ErrorProperties.

(** ** The resource builder: requests *)

Section RequestProperties.
Context {P : Platform}.

(** Each operation, once the token is there: one request, then the reply
    decides. *)
Lemma perform_run (this : FhirResourceBuilder) (op : operation)
    (env : Env) (w w1 : World) (token : jsval) (tok : string) :
  getAccessToken env w = (inr token, w1) ->
  ToString token = inr tok ->
  let request := resource_request (target this op) (verb op) tok
                   (content_type op) (payload op) in
  perform this op env w
  = match fetch_reply env request with
    | None => (inl NetworkError, after_request w1 request)
    | Some response =>
        if ok response
        then response_json response env (after_request w1 request)
        else (inl match classify_attempt response with
                  | inl (FhirOperationOutcomeError m v s) =>
                      FhirOperationOutcomeError m v s
                  | _ => request_error this (verb op) response
                  end, after_request w1 request)
    end.
Proof.
  intros Hg Ht request. subst request.
  destruct op as [[p|]|body|params body|params operations];
    cbn [perform target verb content_type payload];
    unfold get, post, put, patch, bind; rewrite Hg; unfold lift; rewrite Ht;
    unfold ret at 1; unfold fetch, resource_request, bearer_headers, after_request;
    match goal with
    | |- context [fetch_reply env ?r] => destruct (fetch_reply env r) as [response|]
    end; try reflexivity;
    destruct (ok response); cbn [negb]; try reflexivity;
    rewrite handleErrorResponse_run; reflexivity.
Qed.

(** When no token comes, or it does not convert to a string, the operation
    fails with what went wrong there and sends no request of its own. *)
Lemma perform_no_token (this : FhirResourceBuilder) (op : operation)
    (env : Env) (w w1 : World) (e : exn) :
  getAccessToken env w = (inl e, w1) ->
  perform this op env w = (inl e, w1).
Proof.
  intros Hg.
  destruct op as [[p|]|body|params body|params operations];
    cbn [perform]; unfold get, post, put, patch, bind; rewrite Hg; reflexivity.
Qed.

Lemma perform_bad_token (this : FhirResourceBuilder) (op : operation)
    (env : Env) (w w1 : World) (token : jsval) (e : exn) :
  getAccessToken env w = (inr token, w1) ->
  ToString token = inl e ->
  perform this op env w = (inl e, w1).
Proof.
  intros Hg Ht.
  destruct op as [[p|]|body|params body|params operations];
    cbn [perform]; unfold get, post, put, patch, bind; rewrite Hg;
    unfold lift; rewrite Ht; reflexivity.
Qed.

(** Failure on a status outside 2xx, in full.  In each of the four
    operations, on a response whose status is outside 2xx: when the body parses as JSON, the
    [resourceType] of the parsed value is ['OperationOutcome'] and the
    message drawn from it converts to a string, the operation fails with a
    [FhirOperationOutcomeError] carrying the parsed payload and the status;
    in every other case (the body does not parse, the parsed value is not
    an outcome, or its message does not convert) it fails with the generic
    [Error] naming the method, the resource type, the status and the raw
    body.  It never returns normally. *)
Theorem non_2xx_fails (this : FhirResourceBuilder) (op : operation)
    (env : Env) (w w1 : World) (token : jsval) (tok : string)
    (response : Response) :
  getAccessToken env w = (inr token, w1) ->
  ToString token = inr tok ->
  let request := resource_request (target this op) (verb op) tok
                   (content_type op) (payload op) in
  fetch_reply env request = Some response ->
  ok response = false ->
  (forall v m, outcome_body response v -> message_text v m ->
     perform this op env w
     = (inl (FhirOperationOutcomeError m v (status response)),
        after_request w1 request))
  /\ ((forall v m, outcome_body response v -> ~ message_text v m) ->
      perform this op env w
      = (inl (request_error this (verb op) response),
         after_request w1 request))
  /\ (JSON_parse (text response) = None
      \/ (exists v, JSON_parse (text response) = Some v
                    /\ prop v "resourceType" <> Some (JStr "OperationOutcome")) ->
      perform this op env w
      = (inl (request_error this (verb op) response),
         after_request w1 request))
  /\ (forall a w', perform this op env w <> (inr a, w')).
Proof.
  intros Hg Ht request Hf Hok.
  pose proof (perform_run this op env w w1 token tok Hg Ht) as Hrun.
  cbv zeta in Hrun. fold request in Hrun.
  rewrite Hf, Hok in Hrun.
  assert (Hother : (forall v m, outcome_body response v -> ~ message_text v m) ->
                   perform this op env w
                   = (inl (request_error this (verb op) response),
                      after_request w1 request)).
  { intros H. rewrite Hrun, (classify_other this (verb op) response H).
    reflexivity. }
  repeat split.
  - intros v m Hb Hm. rewrite Hrun, (classify_outcome response v m Hb Hm).
    reflexivity.
  - exact Hother.
  - intros H. apply Hother. intros v m [Hp Hr] _.
    destruct H as [H | (v' & Hp' & Hr')]; [congruence|].
    rewrite Hp in Hp'. injection Hp' as <-. contradiction.
  - intros a w'. rewrite Hrun. discriminate.
Qed.

Lemma perform_sent (this : FhirResourceBuilder) (op : operation)
    (env : Env) (w w1 : World) (token : jsval) (tok : string) :
  getAccessToken env w = (inr token, w1) ->
  ToString token = inr tok ->
  sent (snd (perform this op env w))
  = (sent w1 ++ [resource_request (target this op) (verb op) tok
                   (content_type op) (payload op)])%list.
Proof.
  intros Hg Ht.
  pose proof (perform_run this op env w w1 token tok Hg Ht) as Hrun.
  cbv zeta in Hrun. rewrite Hrun. clear Hrun.
  destruct (fetch_reply env _) as [response|]; [|reflexivity].
  destruct (ok response); [|reflexivity].
  unfold response_json. destruct (JSON_parse (text response)); reflexivity.
Qed.

(** C8.  Every request of [get], [post], [put] and [patch] carries
    [Authorization: Bearer {token}] with the token [getAccessToken]
    returned; [get], [post] and [put] send
    [Content-Type: application/json], [patch] sends
    [Content-Type: application/json-patch+json] and the serialization of
    the sequence of operations as its body. *)
Theorem requests_carry_bearer_token (this : FhirResourceBuilder)
    (op : operation) (env : Env) (w w1 : World) (token : jsval) (tok : string) :
  getAccessToken env w = (inr token, w1) ->
  ToString token = inr tok ->
  sent (snd (perform this op env w))
  = (sent w1 ++
     [ {| url := target this op;
          method := verb op;
          headers := [("Authorization", "Bearer " ++ tok)%string;
                      ("Content-Type",
                       match op with
                       | Get _ | Post _ | Put _ _ => "application/json"
                       | Patch _ _ => "application/json-patch+json"
                       end)];
          body := match op with
                  | Get _ => None
                  | Post body | Put _ body => Some (JSON_stringify body)
                  | Patch _ operations => Some (JSON_stringify (JArr operations))
                  end |} ])%list.
Proof.
  intros Hg Ht. rewrite (perform_sent this op env w w1 token tok Hg Ht).
  destruct op; reflexivity.
Qed.


Lemma skipn_length_app {A : Type} (l l' : list A) :
  skipn (List.length l) (l ++ l') = l'.
Proof. induction l as [|x l IH]; simpl; auto. Qed.

Lemma added_app (w w' : World) (l : list Request) :
  sent w' = (sent w ++ l)%list -> added w w' = l.
Proof. intros H. unfold added. rewrite H. apply skipn_length_app. Qed.

(** [getAccessToken] sends nothing, or the token request. *)
Lemma getAccessToken_log (env : Env) (w : World) :
  exists l, sent (snd (getAccessToken env w)) = (sent w ++ l)%list
            /\ (l = [] \/ l = [token_request (oauth w)]).
Proof.
  destruct (tokenState (oauth w)) as [ts|] eqn:Hts;
    [destruct (num_ltb (Int (Date_now env))
                 (num_sub (expiresAt ts) (Int (TOKEN_EXPIRY_BUFFER * 1000))))
       eqn:Hlt|].
  - exists []. rewrite (getAccessToken_reuse env w ts Hts).
    + split; [now rewrite app_nil_r | now left].
    + rewrite isTokenValid_run, Hts, Hlt. reflexivity.
  - exists [token_request (oauth w)]. split; [|now right].
    apply getAccessToken_refresh_sent.
    rewrite isTokenValid_run, Hts, Hlt. reflexivity.
  - exists [token_request (oauth w)]. split; [|now right].
    apply getAccessToken_refresh_sent.
    rewrite isTokenValid_run, Hts. reflexivity.
Qed.

(** What an operation adds to the log: possibly the token request, then
    possibly its own request. *)
Lemma perform_log (this : FhirResourceBuilder) (op : operation)
    (env : Env) (w : World) :
  exists l, sent (snd (perform this op env w)) = (sent w ++ l)%list
            /\ forall q, In q l ->
                 q = token_request (oauth w)
                 \/ exists tok, q = resource_request (target this op) (verb op)
                                      tok (content_type op) (payload op).
Proof.
  destruct (getAccessToken_log env w) as (l & Hl & Hcases).
  assert (Htok : forall q, In q l -> q = token_request (oauth w)).
  { intros q Hin. destruct Hcases as [-> | ->]; simpl in Hin;
      [contradiction | destruct Hin as [<- | []]; reflexivity]. }
  destruct (getAccessToken env w) as [[e|token] w1] eqn:Hg; simpl in Hl.
  - exists l. rewrite (perform_no_token this op env w w1 e Hg).
    split; [exact Hl | auto].
  - destruct (ToString token) as [e|tok] eqn:Ht.
    + exists l. rewrite (perform_bad_token this op env w w1 token e Hg Ht).
      split; [exact Hl | auto].
    + exists (l ++ [resource_request (target this op) (verb op) tok
                      (content_type op) (payload op)])%list.
      rewrite (perform_sent this op env w w1 token tok Hg Ht), Hl, app_assoc.
      split; [reflexivity|].
      intros q Hin. apply in_app_or in Hin as [Hin | [<- | []]]; [auto|].
      right. now exists tok.
Qed.

(** C9.  For every id and body, two calls of [put] with the same arguments
    send PUT requests with the same URL and the same serialized payload,
    whatever happened to the token, the clock and the network in between:
    both carry the URL built from the id and the serialization of the body.
    And a call that obtains a token does send its PUT request. *)
Theorem put_twice_same_request (this : FhirResourceBuilder) (id : string)
    (resource : json number) (env1 env2 : Env) (w : World) :
  let call := put this {| put_pathParams := id |} resource in
  let w1 := snd (call env1 w) in
  let w2 := snd (call env2 w1) in
  (forall q1 q2,
     In q1 (added w w1) -> method q1 = "PUT" ->
     In q2 (added w1 w2) -> method q2 = "PUT" ->
     url q1 = url q2 /\ body q1 = body q2
     /\ url q1 = buildUrl this (Some id) None
     /\ body q1 = Some (JSON_stringify resource))
  /\ (forall env0 w0 w' token tok,
        getAccessToken env0 w0 = (inr token, w') ->
        ToString token = inr tok ->
        exists q, In q (added w0 (snd (call env0 w0))) /\ method q = "PUT").
Proof.
  intros call w1 w2.
  assert (Hput : forall env0 w0 q,
             In q (added w0 (snd (call env0 w0))) -> method q = "PUT" ->
             url q = buildUrl this (Some id) None
             /\ body q = Some (JSON_stringify resource)).
  { intros env0 w0 q Hin Hm.
    destruct (perform_log this (Put {| put_pathParams := id |} resource) env0 w0)
      as (l & Hl & Hq).
    change (perform this (Put {| put_pathParams := id |} resource))
      with call in Hl.
    rewrite (added_app w0 _ l Hl) in Hin.
    destruct (Hq q Hin) as [-> | (tok & ->)]; [discriminate Hm|].
    split; reflexivity. }
  split.
  - intros q1 q2 H1 M1 H2 M2.
    destruct (Hput env1 w q1 H1 M1) as [U1 B1].
    destruct (Hput env2 w1 q2 H2 M2) as [U2 B2].
    repeat split; congruence.
  - intros env0 w0 w' token tok Hg Ht.
    destruct (getAccessToken_log env0 w0) as (l & Hl & _).
    rewrite Hg in Hl. simpl in Hl.
    pose proof (perform_sent this (Put {| put_pathParams := id |} resource)
                  env0 w0 w' token tok Hg Ht) as Hs.
    change (perform this (Put {| put_pathParams := id |} resource))
      with call in Hs.
    rewrite Hl, <- app_assoc in Hs.
    rewrite (added_app w0 _ _ Hs).
    eexists. split; [apply in_or_app; right; left; reflexivity | reflexivity].
Qed.

End RequestProperties.

(** ** The organization service *)

Section OrganizationProperties.
Context {P : Platform}.

Lemma ToString_throws (v : jsval) (e : exn) :
  ToString v = inl e -> e = TypeError.
Proof.
  unfold ToString. destruct v as [x|]; [|discriminate].
  destruct (ToString_json x); [discriminate|]. now intros [= <-].
Qed.

Lemma member_throws (v : json number) (k : string) (e : exn) :
  member v k = inl e -> e = TypeError.
Proof. destruct v; simpl; try discriminate. now intros [= <-]. Qed.

(** The token manager never throws a [FhirOperationOutcomeError]. *)
Lemma fetchToken_throws (env : Env) (w w' : World) (e : exn) :
  fetchToken env w = (inl e, w') ->
  instanceof_FhirOperationOutcomeError e = false.
Proof.
  unfold fetchToken, bind, this_oauth, fetch, response_json, lift.
  destruct (fetch_reply env (token_request (oauth w))) as [r|];
    [|now intros [= <- _]].
  destruct (ok r); cbn [negb]; [|now intros [= <- _]].
  destruct (JSON_parse (text r)) as [data|]; [|now intros [= <- _]].
  unfold ret at 1.
  destruct (member data "expires_in") as [e1|v1] eqn:H1;
    [apply member_throws in H1; subst; now intros [= <- _]|].
  unfold ret at 1.
  destruct (ToString v1) as [e2|s1] eqn:H2;
    [apply ToString_throws in H2; subst; now intros [= <- _]|].
  unfold ret at 1.
  destruct (member data "issued_at") as [e3|v3] eqn:H3;
    [apply member_throws in H3; subst; now intros [= <- _]|].
  unfold ret at 1.
  destruct (ToString v3) as [e4|s3] eqn:H4;
    [apply ToString_throws in H4; subst; now intros [= <- _]|].
  unfold ret at 1.
  destruct (member data "access_token") as [e5|v5] eqn:H5;
    [apply member_throws in H5; subst; now intros [= <- _]|].
  unfold ret, set_tokenState. discriminate.
Qed.

Lemma cached_accessToken_throws (env : Env) (w w' : World) (e : exn) :
  cached_accessToken env w = (inl e, w') -> e = TypeError.
Proof.
  unfold cached_accessToken, bind, this_oauth, ret, throw.
  destruct (tokenState (oauth w)); [discriminate|]. now intros [= <- _].
Qed.

Lemma getAccessToken_throws (env : Env) (w w' : World) (e : exn) :
  getAccessToken env w = (inl e, w') ->
  instanceof_FhirOperationOutcomeError e = false.
Proof.
  unfold getAccessToken, bind at 1. rewrite isTokenValid_run.
  destruct (match tokenState (oauth w) with Some _ => _ | None => _ end).
  - intros H. apply cached_accessToken_throws in H. now subst.
  - unfold bind. destruct (fetchToken env w) as [[e0|u] w0] eqn:Hf.
    + intros [= <- _]. exact (fetchToken_throws env w w0 e0 Hf).
    + intros H. apply cached_accessToken_throws in H. now subst.
Qed.

(** C10.  On a response whose status is outside 2xx, [byName] fails with
    a plain [Error] whose message is
    [Failed to search Organization: {status} {body}]; it never fails with
    a [FhirOperationOutcomeError], not even when the body is an outcome
    payload: this method does not go through the builder's
    [handleErrorResponse]. *)
Theorem byName_fails_with_plain_error (baseUrl name : string)
    (env : Env) (w : World) :
  let this := new_OrganizationService baseUrl in
  (forall w1 token tok response,
     getAccessToken env w = (inr token, w1) ->
     ToString token = inr tok ->
     fetch_reply env (byName_request this name tok) = Some response ->
     ok response = false ->
     byName this name env w
     = (inl (Error ("Failed to search Organization: "
                    ++ Z_toString (status response) ++ " " ++ text response)),
        after_request w1 (byName_request this name tok)))
  /\ (forall m v s w', byName this name env w
                       <> (inl (FhirOperationOutcomeError m v s), w')).
Proof.
  intros this. split.
  - intros w1 token tok response Hg Ht Hf Hok.
    unfold byName, bind. rewrite Hg. unfold lift. rewrite Ht. unfold ret at 1.
    unfold fetch. fold (byName_request this name tok). rewrite Hf, Hok.
    reflexivity.
  - intros m v s w' H. unfold byName, bind in H.
    destruct (getAccessToken env w) as [[e|token] w1] eqn:Hg.
    + injection H as -> _. apply getAccessToken_throws in Hg. discriminate Hg.
    + unfold lift in H. destruct (ToString token) as [e|tok] eqn:Ht.
      * injection H as -> _. apply ToString_throws in Ht. discriminate Ht.
      * unfold ret at 1 in H. unfold fetch in H.
        destruct (fetch_reply env _) as [response|]; [|discriminate H].
        destruct (ok response); cbn [negb] in H; [|discriminate H].
        unfold response_json in H.
        destruct (JSON_parse (text response)); discriminate H.
Qed.

End OrganizationProperties.

(** ** The token manager, further *)

Section TokenFurther.
Context {P : Platform}.

Lemma member_prop (data : json number) (k : string) :
  data <> JNull -> member data k = inr (prop data k).
Proof. destruct data; [congruence | reflexivity ..]. Qed.

(** [fetchToken] on any 2xx reply whose body is a value other than [null]
    and whose two time fields convert to strings. *)
Lemma fetchToken_accepts (env : Env) (w : World) (response : Response)
    (data : json number) (expires_in issued_at : string) :
  fetch_reply env (token_request (oauth w)) = Some response ->
  ok response = true ->
  JSON_parse (text response) = Some data ->
  data <> JNull ->
  ToString (prop data "expires_in") = inr expires_in ->
  ToString (prop data "issued_at") = inr issued_at ->
  fetchToken env w =
  (inr tt,
   {| oauth := with_tokenState (oauth w)
                 (Some {| accessToken := prop data "access_token";
                          expiresAt := num_add (parseInt issued_at)
                                         (num_mul (parseInt expires_in) (Int 1000)) |});
      sent := (sent w ++ [token_request (oauth w)])%list |}).
Proof.
  intros Hf Hok Hp Hnn He Hi.
  unfold fetchToken, bind, this_oauth, fetch, response_json.
  rewrite Hf, Hok. cbn [negb]. rewrite Hp. unfold ret at 1.
  rewrite !(member_prop data _ Hnn). unfold lift at 1, ret at 1.
  rewrite He. unfold lift at 1, ret at 1. unfold lift at 1, ret at 1.
  rewrite Hi. reflexivity.
Qed.

(** [fetchToken] either throws, with the token request sent and nothing
    else changed, or stores a token state. *)
Lemma fetchToken_shape (env : Env) (w : World) :
  (exists e, fetchToken env w = (inl e, after_request w (token_request (oauth w))))
  \/ (exists ts, fetchToken env w
                 = (inr tt,
                    {| oauth := with_tokenState (oauth w) (Some ts);
                       sent := (sent w ++ [token_request (oauth w)])%list |})).
Proof.
  cbv beta iota zeta delta [fetchToken bind this_oauth fetch response_json lift
                              ret throw set_tokenState after_request].
  destruct (fetch_reply env (token_request (oauth w))) as [r|];
    [|left; eexists; reflexivity].
  destruct (ok r); cbv beta iota delta [negb]; [|left; eexists; reflexivity].
  destruct (JSON_parse (text r)) as [data|]; [|left; eexists; reflexivity].
  destruct (member data "expires_in") as [e1|v1];
    [left; eexists; reflexivity|].
  destruct (ToString v1) as [e2|s1]; [left; eexists; reflexivity|].
  destruct (member data "issued_at") as [e3|v3];
    [left; eexists; reflexivity|].
  destruct (ToString v3) as [e4|s3]; [left; eexists; reflexivity|].
  destruct (member data "access_token") as [e5|v5];
    [left; eexists; reflexivity|].
  right. eexists. reflexivity.
Qed.

(** The three ways a call of [getAccessToken] can go. *)
Lemma getAccessToken_shape (env : Env) (w : World) :
  (exists ts, tokenState (oauth w) = Some ts
              /\ isTokenValid env w = (inr true, w)
              /\ getAccessToken env w = (inr (accessToken ts), w))
  \/ (isTokenValid env w = (inr false, w)
      /\ exists e, getAccessToken env w
                   = (inl e, after_request w (token_request (oauth w))))
  \/ (isTokenValid env w = (inr false, w)
      /\ exists ts, getAccessToken env w
                    = (inr (accessToken ts),
                       {| oauth := with_tokenState (oauth w) (Some ts);
                          sent := (sent w ++ [token_request (oauth w)])%list |})).
Proof.
  pose proof (isTokenValid_run env w) as Hv.
  destruct (tokenState (oauth w)) as [ts|] eqn:Hts;
    [destruct (num_ltb _ _) eqn:Hlt in Hv|].
  - left. exists ts. repeat split; [exact Hv|].
    now apply getAccessToken_reuse.
  - right. rewrite (getAccessToken_refresh env w Hv).
    destruct (fetchToken_shape env w) as [(e & ->) | (ts' & ->)].
    + left. split; [exact Hv|]. now exists e.
    + right. split; [exact Hv|]. exists ts'. reflexivity.
  - right. rewrite (getAccessToken_refresh env w Hv).
    destruct (fetchToken_shape env w) as [(e & ->) | (ts' & ->)].
    + left. split; [exact Hv|]. now exists e.
    + right. split; [exact Hv|]. exists ts'. reflexivity.
Qed.

(** X1.  The reuse window of a fetched token.  After a call that fetched
    and decoded a token whose [issued_at + expires_in * 1000] stays below
    [2 ^ 53], a later call at clock [t] returns that token and sends
    nothing when [t < issued_at + expires_in * 1000 - 60000], and fetches
    again from that instant on. *)
Theorem fetched_token_reuse_window (env env2 : Env) (w : World)
    (response : Response) (data : json number)
    (access_token expires_in issued_at : string) :
  ~ reusable (Date_now env) (oauth w) ->
  fetch_reply env (token_request (oauth w)) = Some response ->
  ok response = true ->
  JSON_parse (text response) = Some data ->
  prop data "access_token" = Some (JStr access_token) ->
  prop data "expires_in" = Some (JStr expires_in) ->
  prop data "issued_at" = Some (JStr issued_at) ->
  is_decimal expires_in ->
  is_decimal issued_at ->
  decimal_value issued_at + decimal_value expires_in * 1000 < 2 ^ 53 ->
  let w1 := snd (getAccessToken env w) in
  let deadline := decimal_value issued_at + decimal_value expires_in * 1000
                  - 60 * 1000 in
  (Date_now env2 < deadline ->
     getAccessToken env2 w1 = (inr (Some (JStr access_token)), w1))
  /\ (deadline <= Date_now env2 ->
        sent (snd (getAccessToken env2 w1))
        = (sent w1 ++ [token_request (oauth w)])%list).
Proof.
  intros Hn Hf Hok Hp Ha He Hi De Di Hb w1 deadline.
  assert (Hw1 : w1 = {| oauth := with_tokenState (oauth w)
                          (Some {| accessToken := Some (JStr access_token);
                                   expiresAt := Int (decimal_value issued_at
                                     + decimal_value expires_in * 1000) |});
                        sent := (sent w ++ [token_request (oauth w)])%list |}).
  { subst w1. rewrite (getAccessToken_refresh env w (not_reusable_false env w Hn)).
    rewrite (fetchToken_run env w response data access_token expires_in issued_at
               Hf Hok Hp Ha He Hi).
    rewrite (expiry_exact _ _ Di De Hb). reflexivity. }
  assert (Hv : isTokenValid env2 w1 = (inr (Date_now env2 <? deadline), w1)).
  { rewrite isTokenValid_run, Hw1. reflexivity. }
  split; intros Ht.
  - rewrite (proj2 (Z.ltb_lt _ _) Ht) in Hv.
    rewrite (getAccessToken_reuse env2 w1 _
               (f_equal (fun x => tokenState (oauth x)) Hw1) Hv).
    reflexivity.
  - rewrite (proj2 (Z.ltb_ge _ _) Ht) in Hv.
    rewrite (getAccessToken_refresh_sent env2 w1 Hv), Hw1. reflexivity.
Qed.

(** X2.  A token without usable expiry.  When a 2xx token reply decodes to
    a value whose [expires_in] or [issued_at] does not start with a
    number, a missing field included, the call still succeeds and returns
    the [access_token] field; the token is stored with expiry [NaN], and
    every later call fetches again, whatever the clock reads. *)
Theorem token_without_expiry_is_never_reused (env env2 : Env) (w : World)
    (response : Response) (data : json number) (expires_in issued_at : string) :
  ~ reusable (Date_now env) (oauth w) ->
  fetch_reply env (token_request (oauth w)) = Some response ->
  ok response = true ->
  JSON_parse (text response) = Some data ->
  data <> JNull ->
  ToString (prop data "expires_in") = inr expires_in ->
  ToString (prop data "issued_at") = inr issued_at ->
  parseInt expires_in = NaN \/ parseInt issued_at = NaN ->
  let w1 := {| oauth := with_tokenState (oauth w)
                 (Some {| accessToken := prop data "access_token";
                          expiresAt := NaN |});
               sent := (sent w ++ [token_request (oauth w)])%list |} in
  getAccessToken env w = (inr (prop data "access_token"), w1)
  /\ sent (snd (getAccessToken env2 w1))
     = (sent w1 ++ [token_request (oauth w)])%list.
Proof.
  intros Hn Hf Hok Hp Hnn He Hi Hnan w1. split.
  - rewrite (getAccessToken_refresh env w (not_reusable_false env w Hn)).
    rewrite (fetchToken_accepts env w response data expires_in issued_at
               Hf Hok Hp Hnn He Hi).
    assert (Hx : num_add (parseInt issued_at)
                   (num_mul (parseInt expires_in) (Int 1000)) = NaN).
    { destruct Hnan as [-> | ->]; [|reflexivity].
      destruct (parseInt issued_at); reflexivity. }
    rewrite Hx. reflexivity.
  - apply (getAccessToken_refresh_sent env2 w1). apply isTokenValid_run.
Qed.

(** X3.  A failed call keeps the cache.  When [getAccessToken] throws, the
    token request was sent, once, and the [OAuth] object is what it was:
    a token that is in the cache, expired or not, stays there.  What is
    thrown is never a [FhirOperationOutcomeError]. *)
Theorem failed_token_call_keeps_cache (env : Env) (w w' : World) (e : exn) :
  getAccessToken env w = (inl e, w') ->
  w' = after_request w (token_request (oauth w))
  /\ oauth w' = oauth w
  /\ instanceof_FhirOperationOutcomeError e = false.
Proof.
  intros H.
  assert (Hw : w' = after_request w (token_request (oauth w))).
  { destruct (getAccessToken_shape env w)
      as [(ts & _ & _ & Hg) | [(_ & e' & Hg) | (_ & ts & Hg)]];
      rewrite Hg in H; congruence. }
  split; [exact Hw|]. split; [now rewrite Hw|].
  exact (getAccessToken_throws env w w' e H).
Qed.

(** X4.  A 2xx token reply that cannot be decoded.  When the body is not
    JSON the call fails with a [SyntaxError], when it is the JSON text
    [null] with a [TypeError]; either way the request was sent and nothing
    was stored. *)
Theorem undecodable_token_reply (env : Env) (w : World) (response : Response) :
  ~ reusable (Date_now env) (oauth w) ->
  fetch_reply env (token_request (oauth w)) = Some response ->
  ok response = true ->
  (JSON_parse (text response) = None ->
     getAccessToken env w
     = (inl SyntaxError, after_request w (token_request (oauth w))))
  /\ (JSON_parse (text response) = Some JNull ->
        getAccessToken env w
        = (inl TypeError, after_request w (token_request (oauth w)))).
Proof.
  intros Hn Hf Hok.
  rewrite (getAccessToken_refresh env w (not_reusable_false env w Hn)).
  unfold fetchToken, bind, this_oauth, fetch, response_json.
  rewrite Hf, Hok. cbn [negb].
  split; intros ->; reflexivity.
Qed.

(** X5.  What is returned is what is cached.  Whenever [getAccessToken]
    returns a token, the token state is present afterwards and holds that
    very token; the client id, the client secret and the auth URL are the
    ones from before the call. *)
Theorem returned_token_is_cached (env : Env) (w w' : World) (token : jsval) :
  getAccessToken env w = (inr token, w') ->
  (exists ts, tokenState (oauth w') = Some ts /\ accessToken ts = token)
  /\ clientId (oauth w') = clientId (oauth w)
  /\ clientSecret (oauth w') = clientSecret (oauth w)
  /\ authUrl (oauth w') = authUrl (oauth w).
Proof.
  intros H.
  destruct (getAccessToken_shape env w)
    as [(ts & Hts & _ & Hg) | [(_ & e' & Hg) | (_ & ts & Hg)]];
    rewrite Hg in H; [| discriminate H |];
    injection H as <- <-; (split; [exists ts; split; [assumption || reflexivity | reflexivity] | repeat split]).
Qed.

End TokenFurther.

(** ** Operations, further *)

Lemma prefix_append (a b : string) : String.prefix a (a ++ b) = true.
Proof.
  induction a as [|x a IH]; simpl; [destruct b; reflexivity|].
  destruct (ascii_dec x x) as [_|Hx]; [exact IH | congruence].
Qed.

Section OperationsFurther.
Context {P : Platform}.

Lemma getAccessToken_returns_cache (env : Env) (w w' : World) (token : jsval) :
  getAccessToken env w = (inr token, w') ->
  exists ts, tokenState (oauth w') = Some ts /\ accessToken ts = token.
Proof.
  intros H.
  destruct (getAccessToken_shape env w)
    as [(ts & Hts & _ & Hg) | [(_ & e' & Hg) | (_ & ts & Hg)]];
    rewrite Hg in H; [| discriminate H |];
    injection H as <- <-; exists ts; split; auto.
Qed.

(** The credentials survive a call of [getAccessToken]. *)
Lemma getAccessToken_frame (env : Env) (w : World) :
  let o' := oauth (snd (getAccessToken env w)) in
  clientId o' = clientId (oauth w)
  /\ clientSecret o' = clientSecret (oauth w)
  /\ authUrl o' = authUrl (oauth w).
Proof.
  destruct (getAccessToken_shape env w)
    as [(ts & _ & _ & Hg) | [(_ & e' & Hg) | (_ & ts & Hg)]];
    rewrite Hg; repeat split.
Qed.

(** An operation touches the [OAuth] object through [getAccessToken]
    only. *)
Lemma perform_oauth (this : FhirResourceBuilder) (op : operation)
    (env : Env) (w : World) :
  oauth (snd (perform this op env w)) = oauth (snd (getAccessToken env w)).
Proof.
  destruct (getAccessToken env w) as [[e|token] w1] eqn:Hg.
  - now rewrite (perform_no_token this op env w w1 e Hg).
  - destruct (ToString token) as [e|tok] eqn:Ht.
    + now rewrite (perform_bad_token this op env w w1 token e Hg Ht).
    + pose proof (perform_run this op env w w1 token tok Hg Ht) as Hrun.
      cbv zeta in Hrun. rewrite Hrun.
      destruct (fetch_reply env _) as [response|]; [|reflexivity].
      destruct (ok response); [|reflexivity].
      unfold response_json. destruct (JSON_parse (text response)); reflexivity.
Qed.

(** [byName], case by case. *)
Lemma byName_run (this : OrganizationService) (name : string)
    (env : Env) (w w1 : World) (token : jsval) (tok : string) :
  getAccessToken env w = (inr token, w1) ->
  ToString token = inr tok ->
  byName this name env w
  = match fetch_reply env (byName_request this name tok) with
    | None => (inl NetworkError, after_request w1 (byName_request this name tok))
    | Some response =>
        (if ok response
         then match JSON_parse (text response) with
              | Some v => inr v
              | None => inl SyntaxError
              end
         else inl (Error ("Failed to search " ++ org_resourceType this ++ ": "
                          ++ Z_toString (status response) ++ " "
                          ++ text response)),
         after_request w1 (byName_request this name tok))
    end.
Proof.
  intros Hg Ht. unfold byName, bind. rewrite Hg. unfold lift. rewrite Ht.
  unfold ret at 1. unfold fetch. fold (byName_request this name tok).
  destruct (fetch_reply env _) as [response|]; [|reflexivity].
  destruct (ok response); cbn [negb]; [|reflexivity].
  unfold response_json. destruct (JSON_parse (text response)); reflexivity.
Qed.

Lemma byName_no_token (this : OrganizationService) (name : string)
    (env : Env) (w w1 : World) (e : exn) :
  getAccessToken env w = (inl e, w1) ->
  byName this name env w = (inl e, w1).
Proof. intros Hg. unfold byName, bind. now rewrite Hg. Qed.

Lemma byName_bad_token (this : OrganizationService) (name : string)
    (env : Env) (w w1 : World) (token : jsval) (e : exn) :
  getAccessToken env w = (inr token, w1) ->
  ToString token = inl e ->
  byName this name env w = (inl e, w1).
Proof.
  intros Hg Ht. unfold byName, bind. rewrite Hg. unfold lift. now rewrite Ht.
Qed.

Lemma byName_sent (this : OrganizationService) (name : string)
    (env : Env) (w w1 : World) (token : jsval) (tok : string) :
  getAccessToken env w = (inr token, w1) ->
  ToString token = inr tok ->
  sent (snd (byName this name env w))
  = (sent w1 ++ [byName_request this name tok])%list.
Proof.
  intros Hg Ht. rewrite (byName_run this name env w w1 token tok Hg Ht).
  destruct (fetch_reply env _) as [response|]; reflexivity.
Qed.

Lemma byName_oauth (this : OrganizationService) (name : string)
    (env : Env) (w : World) :
  oauth (snd (byName this name env w)) = oauth (snd (getAccessToken env w)).
Proof.
  destruct (getAccessToken env w) as [[e|token] w1] eqn:Hg.
  - now rewrite (byName_no_token this name env w w1 e Hg).
  - destruct (ToString token) as [e|tok] eqn:Ht.
    + now rewrite (byName_bad_token this name env w w1 token e Hg Ht).
    + rewrite (byName_run this name env w w1 token tok Hg Ht).
      destruct (fetch_reply env _) as [response|]; reflexivity.
Qed.

(** [byId] is [get] with the id as path parameter. *)
Lemma byId_get (this : OrganizationService) (id : string) (env : Env) (w : World) :
  byId this id env w
  = perform (org_fhir this)
      (Get (Some {| pathParams := Some id; queryParams := None |})) env w.
Proof.
  unfold byId, bind, ret. cbn [perform].
  destruct (get _ _ env w) as [[e|v] w']; reflexivity.
Qed.

(** X6.  A 2xx reply is returned as it is.  In each of the four
    operations, when the status is 2xx the result is the parsed body,
    whatever it is, an [OperationOutcome] included: the error path is not
    entered.  A 2xx body that is not JSON makes the operation fail with a
    [SyntaxError]. *)
Theorem ok_reply_is_returned_as_is (this : FhirResourceBuilder) (op : operation)
    (env : Env) (w w1 : World) (token : jsval) (tok : string)
    (response : Response) :
  getAccessToken env w = (inr token, w1) ->
  ToString token = inr tok ->
  let request := resource_request (target this op) (verb op) tok
                   (content_type op) (payload op) in
  fetch_reply env request = Some response ->
  ok response = true ->
  (forall v, JSON_parse (text response) = Some v ->
     perform this op env w = (inr v, after_request w1 request))
  /\ (JSON_parse (text response) = None ->
      perform this op env w = (inl SyntaxError, after_request w1 request)).
Proof.
  intros Hg Ht request Hf Hok.
  pose proof (perform_run this op env w w1 token tok Hg Ht) as Hrun.
  cbv zeta in Hrun. fold request in Hrun. rewrite Hf, Hok in Hrun.
  unfold response_json in Hrun.
  split; [intros v Hp | intros Hp]; rewrite Hrun, Hp; reflexivity.
Qed.

(** X7.  One token for every builder and service.  Once a call has
    obtained a token, the next operation, on any builder or on the
    organization service, under a clock at which that token is still
    reusable, sends its own request only, with that same token as bearer:
    the token endpoint is not asked again. *)
Theorem next_operation_reuses_token (this1 this2 : FhirResourceBuilder)
    (org : OrganizationService) (op1 op2 : operation) (name : string)
    (env1 env2 : Env) (w w1 : World) (token : jsval) (tok : string) :
  getAccessToken env1 w = (inr token, w1) ->
  ToString token = inr tok ->
  reusable (Date_now env2) (oauth w1) ->
  let w2 := snd (perform this1 op1 env1 w) in
  sent (snd (perform this2 op2 env2 w2))
  = (sent w2 ++ [resource_request (target this2 op2) (verb op2) tok
                   (content_type op2) (payload op2)])%list
  /\ sent (snd (byName org name env2 w2))
     = (sent w2 ++ [byName_request org name tok])%list.
Proof.
  intros Hg Ht Hr w2.
  assert (Ho : oauth w2 = oauth w1).
  { subst w2. now rewrite perform_oauth, Hg. }
  destruct (getAccessToken_returns_cache env1 w w1 token Hg) as (ts & Hts & Hat).
  assert (Hg2 : getAccessToken env2 w2 = (inr token, w2)).
  { rewrite <- Ho in Hr, Hts.
    destruct (reusable_true env2 w2 Hr) as (ts' & Hts' & Hv).
    rewrite (getAccessToken_reuse env2 w2 ts' Hts' Hv). congruence. }
  split.
  - exact (perform_sent this2 op2 env2 w2 w2 token tok Hg2 Ht).
  - exact (byName_sent org name env2 w2 w2 token tok Hg2 Ht).
Qed.

(** X8.  No token, no request.  When the token endpoint answers outside
    2xx, every operation of the builder, [byId] and [byName] fail with the
    error of the token fetch, and none of them sends a request of its
    own. *)
Theorem refused_token_stops_every_operation (env : Env) (w : World)
    (response : Response) :
  ~ reusable (Date_now env) (oauth w) ->
  fetch_reply env (token_request (oauth w)) = Some response ->
  ok response = false ->
  let failure :=
    (inl (Error ("Failed to fetch access token: "
                 ++ Z_toString (status response) ++ " " ++ text response)),
     after_request w (token_request (oauth w))) in
  (forall this op, perform this op env w = failure)
  /\ (forall org id, byId org id env w = failure)
  /\ (forall org name, byName org name env w = failure).
Proof.
  intros Hn Hf Hok failure.
  assert (Hg : getAccessToken env w
               = (inl (Error ("Failed to fetch access token: "
                              ++ Z_toString (status response) ++ " "
                              ++ text response)),
                  after_request w (token_request (oauth w)))).
  { rewrite (getAccessToken_refresh env w (not_reusable_false env w Hn)).
    unfold fetchToken, bind, this_oauth, fetch. rewrite Hf, Hok. reflexivity. }
  repeat split.
  - intros this op. exact (perform_no_token this op env w _ _ Hg).
  - intros org id. rewrite byId_get. exact (perform_no_token _ _ env w _ _ Hg).
  - intros org name. exact (byName_no_token org name env w _ _ Hg).
Qed.

(** X9.  No retries.  An operation only appends to the log, and what it
    appends is at most the token request followed by at most one request
    of its own. *)
Theorem one_attempt_per_operation (this : FhirResourceBuilder) (op : operation)
    (env : Env) (w : World) :
  let token_fetch := token_request (oauth w) in
  let own tok := resource_request (target this op) (verb op) tok
                   (content_type op) (payload op) in
  exists l,
    sent (snd (perform this op env w)) = (sent w ++ l)%list
    /\ (l = [] \/ l = [token_fetch]
        \/ (exists tok, l = [own tok])
        \/ (exists tok, l = [token_fetch; own tok])).
Proof.
  intros token_fetch own.
  destruct (getAccessToken_log env w) as (l & Hl & Hcases).
  destruct (getAccessToken env w) as [[e|token] w1] eqn:Hg; simpl in Hl.
  - exists l. rewrite (perform_no_token this op env w w1 e Hg).
    split; [exact Hl | destruct Hcases; auto].
  - destruct (ToString token) as [e|tok] eqn:Ht.
    + exists l. rewrite (perform_bad_token this op env w w1 token e Hg Ht).
      split; [exact Hl | destruct Hcases; auto].
    + exists (l ++ [own tok])%list.
      rewrite (perform_sent this op env w w1 token tok Hg Ht), Hl, app_assoc.
      split; [reflexivity|].
      destruct Hcases as [-> | ->]; [right; right; left | right; right; right];
        now exists tok.
Qed.

End OperationsFurther.

(** ** Sessions of a client *)

Lemma prefix_app_r (a b c : string) :
  String.prefix a b = true -> String.prefix a (b ++ c) = true.
Proof.
  revert b. induction a as [|x a IH]; intros b H.
  - destruct (b ++ c)%string; reflexivity.
  - destruct b as [|y b]; [discriminate H|]. simpl in *.
    destruct (ascii_dec x y); [now apply IH | discriminate H].
Qed.

Section Sessions.
Context {P : Platform}.

Lemma buildUrl_prefix (this : FhirResourceBuilder)
    (id : option string) (query : option QueryParams) :
  String.prefix (baseUrl this) (buildUrl this id query) = true.
Proof.
  unfold buildUrl.
  destruct id as [[|c r]|]; cbn [truthy];
    destruct query as [[|entry q]|]; cbn [List.length Nat.ltb Nat.leb];
    repeat first [apply prefix_append | apply prefix_app_r].
Qed.

Lemma target_prefix (this : FhirResourceBuilder) (op : operation) :
  String.prefix (baseUrl this) (target this op) = true.
Proof. destruct op as [[p|]| | |]; apply buildUrl_prefix. Qed.

Lemma token_request_frame (o o' : OAuth) :
  clientId o' = clientId o -> clientSecret o' = clientSecret o ->
  authUrl o' = authUrl o -> token_request o' = token_request o.
Proof. intros H1 H2 H3. unfold token_request. now rewrite H1, H2, H3. Qed.

(** What a call of [getAccessToken] adds, with the case of an empty
    cache. *)
Lemma getAccessToken_step (env : Env) (w : World) :
  exists l,
    sent (snd (getAccessToken env w)) = (sent w ++ l)%list
    /\ (l = [] \/ l = [token_request (oauth w)])
    /\ (tokenState (oauth w) = None -> l = [token_request (oauth w)]).
Proof.
  destruct (getAccessToken_shape env w)
    as [(ts & Hts & _ & Hg) | [(_ & e' & Hg) | (_ & ts & Hg)]]; rewrite Hg.
  - exists []. simpl. rewrite app_nil_r. repeat split; [now left | congruence].
  - exists [token_request (oauth w)]. repeat split. now right.
  - exists [token_request (oauth w)]. repeat split. now right.
Qed.

(** A method that first obtains the token and then sends at most one
    request of its own, leaving the [OAuth] object alone. *)
Lemma token_then_request (env : Env) (w w' : World) (own : Request -> Prop) :
  oauth w' = oauth (snd (getAccessToken env w)) ->
  (sent w' = sent (snd (getAccessToken env w))
   \/ exists q, own q /\ sent w' = (sent (snd (getAccessToken env w)) ++ [q])%list) ->
  exists l,
    sent w' = (sent w ++ l)%list
    /\ clientId (oauth w') = clientId (oauth w)
    /\ clientSecret (oauth w') = clientSecret (oauth w)
    /\ authUrl (oauth w') = authUrl (oauth w)
    /\ (forall q, In q l -> q = token_request (oauth w) \/ own q)
    /\ (tokenState (oauth w) = None ->
        exists rest, l = token_request (oauth w) :: rest).
Proof.
  intros Ho Hs.
  destruct (getAccessToken_step env w) as (l & Hl & Hcases & Hnone).
  destruct (getAccessToken_frame env w) as (F1 & F2 & F3).
  rewrite <- Ho in F1, F2, F3.
  assert (Htok : forall q, In q l -> q = token_request (oauth w)).
  { intros q Hin. destruct Hcases as [-> | ->]; simpl in Hin;
      [contradiction | destruct Hin as [<- | []]; reflexivity]. }
  destruct Hs as [Hs | (q0 & Hown & Hs)]; rewrite Hl in Hs.
  - exists l. repeat split; auto.
    intros Hn. exists []. now apply Hnone.
  - exists (l ++ [q0])%list. rewrite <- app_assoc in Hs. repeat split; auto.
    + intros q Hin. apply in_app_or in Hin as [Hin | [<- | []]]; auto.
    + intros Hn. rewrite (Hnone Hn). now exists [q0].
Qed.

Lemma perform_step (this : FhirResourceBuilder) (op : operation)
    (env : Env) (w : World) :
  let w' := snd (perform this op env w) in
  oauth w' = oauth (snd (getAccessToken env w))
  /\ (sent w' = sent (snd (getAccessToken env w))
      \/ exists q, (String.prefix (baseUrl this) (url q) = true
                    /\ authenticated q)
                   /\ sent w' = (sent (snd (getAccessToken env w)) ++ [q])%list).
Proof.
  split; [apply perform_oauth|].
  destruct (getAccessToken env w) as [[e|token] w1] eqn:Hg.
  - left. now rewrite (perform_no_token this op env w w1 e Hg).
  - destruct (ToString token) as [e|tok] eqn:Ht.
    + left. now rewrite (perform_bad_token this op env w w1 token e Hg Ht).
    + right. eexists. split; [|exact (perform_sent this op env w w1 token tok Hg Ht)].
      split; [apply target_prefix | now exists tok; eexists].
Qed.

Lemma byName_step (this : OrganizationService) (name : string)
    (env : Env) (w : World) :
  let w' := snd (byName this name env w) in
  oauth w' = oauth (snd (getAccessToken env w))
  /\ (sent w' = sent (snd (getAccessToken env w))
      \/ exists q, (String.prefix (org_baseUrl this) (url q) = true
                    /\ authenticated q)
                   /\ sent w' = (sent (snd (getAccessToken env w)) ++ [q])%list).
Proof.
  split; [apply byName_oauth|].
  destruct (getAccessToken env w) as [[e|token] w1] eqn:Hg.
  - left. now rewrite (byName_no_token this name env w w1 e Hg).
  - destruct (ToString token) as [e|tok] eqn:Ht.
    + left. now rewrite (byName_bad_token this name env w w1 token e Hg Ht).
    + right. eexists. split; [|exact (byName_sent this name env w w1 token tok Hg Ht)].
      split; [apply prefix_append | now exists tok; eexists].
Qed.

(** One call on a client built by the constructor. *)
Lemma run_call_step (config : SatusehatConfig) (c : call) (env : Env) (w : World) :
  let this := fst (new_SatusehatClient config) in
  let w' := run_call this c env w in
  exists l,
    sent w' = (sent w ++ l)%list
    /\ clientId (oauth w') = clientId (oauth w)
    /\ clientSecret (oauth w') = clientSecret (oauth w)
    /\ authUrl (oauth w') = authUrl (oauth w)
    /\ (forall q, In q l ->
          q = token_request (oauth w)
          \/ (String.prefix (fhir_url (BASE_URLS (cfg_environment config)))
                (url q) = true
              /\ authenticated q))
    /\ (tokenState (oauth w) = None ->
        (l = [] /\ tokenState (oauth w') = None)
        \/ exists rest, l = token_request (oauth w) :: rest).
Proof.
  intros this w'.
  assert (Hgen : forall w1,
             oauth w1 = oauth (snd (getAccessToken env w)) ->
             (sent w1 = sent (snd (getAccessToken env w))
              \/ exists q,
                   (String.prefix (fhir_url (BASE_URLS (cfg_environment config)))
                      (url q) = true
                    /\ authenticated q)
                   /\ sent w1 = (sent (snd (getAccessToken env w)) ++ [q])%list) ->
             exists l,
               sent w1 = (sent w ++ l)%list
               /\ clientId (oauth w1) = clientId (oauth w)
               /\ clientSecret (oauth w1) = clientSecret (oauth w)
               /\ authUrl (oauth w1) = authUrl (oauth w)
               /\ (forall q, In q l ->
                     q = token_request (oauth w)
                     \/ (String.prefix (fhir_url (BASE_URLS (cfg_environment config)))
                           (url q) = true
                         /\ authenticated q))
               /\ (tokenState (oauth w) = None ->
                   (l = [] /\ tokenState (oauth w1) = None)
                   \/ exists rest, l = token_request (oauth w) :: rest)).
  { intros w1 Ho Hs.
    destruct (token_then_request env w w1 _ Ho Hs)
      as (l & H1 & H2 & H3 & H4 & H5 & H6).
    exists l. repeat split; auto. }
  subst w'. destruct c as [rt op | id | name | |]; cbn [run_call].
  - destruct (perform_step (fhir this rt) op env w) as [Ho Hs].
    exact (Hgen _ Ho Hs).
  - unfold organization, this, new_SatusehatClient, fst. rewrite byId_get.
    destruct (perform_step
                (org_fhir (new_OrganizationService
                             (fhir_url (BASE_URLS (cfg_environment config)))))
                (Get (Some {| pathParams := Some id; queryParams := None |}))
                env w) as [Ho Hs].
    exact (Hgen _ Ho Hs).
  - destruct (byName_step (organization this) name env w) as [Ho Hs].
    exact (Hgen _ Ho Hs).
  - unfold client_getAccessToken.
    destruct (getAccessToken_step env w) as (l & Hl & Hcases & Hnone).
    destruct (getAccessToken_frame env w) as (F1 & F2 & F3).
    exists l. repeat split; auto.
    + intros q Hin. left. destruct Hcases as [-> | ->]; simpl in Hin;
        [contradiction | destruct Hin as [<- | []]; reflexivity].
    + intros Hn. right. exists []. now apply Hnone.
  - unfold client_clearToken, clearToken, set_tokenState. simpl.
    exists []. rewrite app_nil_r. repeat split; auto. intros q [].
Qed.

(** X10.  A client talks to its environment only, and never without a
    token.  However a client built from a configuration is used, its
    credentials stay those of the configuration; every request it sends is
    either the token request, which goes to the auth URL of the configured
    environment, or a request to the FHIR URL of that environment that
    presents a bearer token; and the first request it ever sends is the
    token request. *)
Theorem session_stays_in_environment (config : SatusehatConfig)
    (calls : list (call * Env)) :
  let this := fst (new_SatusehatClient config) in
  let w0 := snd (new_SatusehatClient config) in
  let urls := BASE_URLS (cfg_environment config) in
  let w := run_calls this calls w0 in
  clientId (oauth w) = cfg_clientId config
  /\ clientSecret (oauth w) = cfg_clientSecret config
  /\ authUrl (oauth w) = auth urls
  /\ (forall q, In q (sent w) ->
        q = token_request (oauth w0)
           /\ String.prefix (auth urls) (url q) = true
        \/ String.prefix (fhir_url urls) (url q) = true /\ authenticated q)
  /\ (sent w = [] \/ exists rest, sent w = token_request (oauth w0) :: rest).
Proof.
  intros this w0 urls w.
  assert (Hinv : forall calls w1,
             clientId (oauth w1) = cfg_clientId config ->
             clientSecret (oauth w1) = cfg_clientSecret config ->
             authUrl (oauth w1) = auth urls ->
             (forall q, In q (sent w1) ->
                q = token_request (oauth w0)
                   /\ String.prefix (auth urls) (url q) = true
                \/ String.prefix (fhir_url urls) (url q) = true /\ authenticated q) ->
             (sent w1 = [] /\ tokenState (oauth w1) = None
              \/ exists rest, sent w1 = token_request (oauth w0) :: rest) ->
             let w2 := run_calls this calls w1 in
             clientId (oauth w2) = cfg_clientId config
             /\ clientSecret (oauth w2) = cfg_clientSecret config
             /\ authUrl (oauth w2) = auth urls
             /\ (forall q, In q (sent w2) ->
                   q = token_request (oauth w0)
                      /\ String.prefix (auth urls) (url q) = true
                   \/ String.prefix (fhir_url urls) (url q) = true
                      /\ authenticated q)
             /\ (sent w2 = [] \/ exists rest, sent w2 = token_request (oauth w0) :: rest)).
  { clear w calls. induction calls as [|[c env] calls IH];
      intros w1 H1 H2 H3 H4 H5; cbn [run_calls].
    - repeat split; auto. destruct H5 as [[-> _] | H5]; auto.
    - destruct (run_call_step config c env w1)
        as (l & Hl & F1 & F2 & F3 & Hq & Hfirst).
      fold this in Hl, F1, F2, F3, Hfirst.
      assert (Htr : token_request (oauth w1) = token_request (oauth w0)).
      { apply token_request_frame; [rewrite H1 | rewrite H2 | rewrite H3];
          reflexivity. }
      apply IH.
      + now rewrite F1.
      + now rewrite F2.
      + now rewrite F3.
      + intros q Hin. rewrite Hl in Hin. apply in_app_or in Hin as [Hin | Hin];
          [now apply H4|].
        destruct (Hq q Hin) as [-> | Hp]; [left | now right].
        split; [exact Htr|].
        unfold token_request. cbn [url]. rewrite H3. apply prefix_append.
      + rewrite Hl. destruct H5 as [[Hs Hts] | (rest & Hs)]; rewrite Hs.
        * destruct (Hfirst Hts) as [[-> Hts'] | (rest & ->)].
          -- left. split; [reflexivity | exact Hts'].
          -- right. exists rest. cbn [app]. now rewrite Htr.
        * right. exists (rest ++ l)%list. reflexivity. }
  apply Hinv; try reflexivity.
  - intros q [].
  - left. split; reflexivity.
Qed.

End Sessions.

(** ** URLs, read back *)

Lemma string_length_append (a b : string) :
  String.length (a ++ b) = (String.length a + String.length b)%nat.
Proof. induction a as [|x a IH]; simpl; [reflexivity | now rewrite IH]. Qed.

Lemma append_cancel_l (a x y : string) : (a ++ x = a ++ y)%string -> x = y.
Proof.
  induction a as [|c a IH]; simpl; intros H; [exact H|].
  injection H as H. now apply IH.
Qed.

Lemma append_cancel_r (x y c : string) : (x ++ c = y ++ c)%string -> x = y.
Proof.
  revert y. induction x as [|a x IH]; intros [|b y] H; simpl in H.
  - reflexivity.
  - apply (f_equal String.length) in H. simpl in H.
    rewrite string_length_append in H. lia.
  - apply (f_equal String.length) in H. simpl in H.
    rewrite string_length_append in H. lia.
  - injection H as -> H. f_equal. now apply IH.
Qed.

(** Byte by byte: what each encoder emits for [c] decodes to [c], and
    holds none of the separators. *)
Lemma percent_decode_unit (c : ascii) (rest : string) :
  percent_decode ((if uri_unreserved c then String c EmptyString
                   else percent_byte c) ++ rest)
  = String c (percent_decode rest).
Proof. destruct c as [[] [] [] [] [] [] [] []]; reflexivity. Qed.

Lemma form_decode_unit (c : ascii) (rest : string) :
  form_decode (form_byte c ++ rest) = String c (form_decode rest).
Proof. destruct c as [[] [] [] [] [] [] [] []]; reflexivity. Qed.

Lemma form_decode_uri_unit (c : ascii) (rest : string) :
  form_decode ((if uri_unreserved c then String c EmptyString
                else percent_byte c) ++ rest)
  = String c (form_decode rest).
Proof. destruct c as [[] [] [] [] [] [] [] []]; reflexivity. Qed.

Lemma uri_unit_separators (c : ascii) (rest : string) :
  let unit := (if uri_unreserved c then String c EmptyString
               else percent_byte c) in
  occurs "/" (unit ++ rest) = occurs "/" rest
  /\ occurs "?" (unit ++ rest) = occurs "?" rest
  /\ occurs "#" (unit ++ rest) = occurs "#" rest
  /\ occurs "&" (unit ++ rest) = occurs "&" rest
  /\ occurs "=" (unit ++ rest) = occurs "=" rest.
Proof. destruct c as [[] [] [] [] [] [] [] []]; repeat split. Qed.

Lemma form_unit_separators (c : ascii) (rest : string) :
  occurs "&" (form_byte c ++ rest) = occurs "&" rest
  /\ occurs "=" (form_byte c ++ rest) = occurs "=" rest.
Proof. destruct c as [[] [] [] [] [] [] [] []]; repeat split. Qed.

Lemma percent_decode_encode (s : string) :
  percent_decode (encodeURIComponent s) = s.
Proof.
  induction s as [|c r IH]; [reflexivity|].
  change (encodeURIComponent (String c r))
    with ((if uri_unreserved c then String c EmptyString else percent_byte c)
          ++ encodeURIComponent r)%string.
  now rewrite percent_decode_unit, IH.
Qed.

Lemma form_decode_encode (s : string) : form_decode (form_encode s) = s.
Proof.
  induction s as [|c r IH]; [reflexivity|].
  change (form_encode (String c r)) with (form_byte c ++ form_encode r)%string.
  now rewrite form_decode_unit, IH.
Qed.

Lemma form_decode_encodeURIComponent (s : string) :
  form_decode (encodeURIComponent s) = s.
Proof.
  induction s as [|c r IH]; [reflexivity|].
  change (encodeURIComponent (String c r))
    with ((if uri_unreserved c then String c EmptyString else percent_byte c)
          ++ encodeURIComponent r)%string.
  now rewrite form_decode_uri_unit, IH.
Qed.

Lemma encodeURIComponent_separators (s : string) :
  occurs "/" (encodeURIComponent s) = false
  /\ occurs "?" (encodeURIComponent s) = false
  /\ occurs "#" (encodeURIComponent s) = false
  /\ occurs "&" (encodeURIComponent s) = false
  /\ occurs "=" (encodeURIComponent s) = false.
Proof.
  induction s as [|c r IH]; [repeat split|].
  change (encodeURIComponent (String c r))
    with ((if uri_unreserved c then String c EmptyString else percent_byte c)
          ++ encodeURIComponent r)%string.
  destruct (uri_unit_separators c (encodeURIComponent r)) as (H1 & H2 & H3 & H4 & H5).
  cbv zeta in H1, H2, H3, H4, H5. rewrite H1, H2, H3, H4, H5. exact IH.
Qed.

Lemma form_encode_separators (s : string) :
  occurs "&" (form_encode s) = false /\ occurs "=" (form_encode s) = false.
Proof.
  induction s as [|c r IH]; [split; reflexivity|].
  change (form_encode (String c r)) with (form_byte c ++ form_encode r)%string.
  destruct (form_unit_separators c (form_encode r)) as (H1 & H2).
  rewrite H1, H2. exact IH.
Qed.

Lemma occurs_append (c : ascii) (a b : string) :
  occurs c (a ++ b) = occurs c a || occurs c b.
Proof.
  induction a as [|x a IH]; simpl; [reflexivity|].
  now rewrite IH, orb_assoc.
Qed.

Lemma split_on_absent (sep : ascii) (a : string) :
  occurs sep a = false -> split_on sep a = [a].
Proof.
  induction a as [|x a IH]; simpl; [reflexivity|].
  intros H. apply orb_false_iff in H as [Hx Ha].
  rewrite Hx, (IH Ha). reflexivity.
Qed.

Lemma split_on_first (sep : ascii) (a b : string) :
  occurs sep a = false ->
  split_on sep (a ++ String sep b) = a :: split_on sep b.
Proof.
  induction a as [|x a IH]; simpl; intros H.
  - now rewrite Ascii.eqb_refl.
  - apply orb_false_iff in H as [Hx Ha]. rewrite Hx, (IH Ha). reflexivity.
Qed.

Lemma split_pair_first (k v : string) :
  occurs "=" k = false -> split_pair (k ++ String "=" v) = (k, v).
Proof.
  induction k as [|x k IH]; simpl; intros H; [reflexivity|].
  apply orb_false_iff in H as [Hx Hk]. rewrite Hx, (IH Hk). reflexivity.
Qed.

(** One serialized pair, read back. *)
Lemma parse_piece (kv : string * string) :
  occurs "&" (form_pair kv) = false
  /\ nonempty (form_pair kv) = true
  /\ (let '(k, v) := split_pair (form_pair kv) in (form_decode k, form_decode v))
     = kv.
Proof.
  destruct kv as [k v]. unfold form_pair. cbn [fst snd].
  destruct (form_encode_separators k) as [Hk1 Hk2].
  destruct (form_encode_separators v) as [Hv1 _].
  change ("=" ++ form_encode v)%string with (String "=" (form_encode v)).
  repeat split.
  - rewrite occurs_append, Hk1. simpl. exact Hv1.
  - destruct (form_encode k); reflexivity.
  - rewrite (split_pair_first _ _ Hk2). now rewrite !form_decode_encode.
Qed.

(** The form parser undoes the serializer. *)
Lemma parse_query_toString (p : URLSearchParams) :
  parse_query (URLSearchParams_toString p) = p.
Proof.
  induction p as [|kv [|kv' r] IH].
  - reflexivity.
  - destruct (parse_piece kv) as (H1 & H2 & H3).
    cbn [URLSearchParams_toString]. unfold parse_query.
    rewrite (split_on_absent _ _ H1). cbn [filter]. rewrite H2.
    cbn [map]. now rewrite H3.
  - destruct (parse_piece kv) as (H1 & H2 & H3).
    change (URLSearchParams_toString (kv :: kv' :: r))
      with (form_pair kv ++ String "&" (URLSearchParams_toString (kv' :: r)))%string.
    unfold parse_query in *.
    rewrite (split_on_first _ _ _ H1). cbn [filter]. rewrite H2.
    cbn [map]. now rewrite H3, IH.
Qed.

Section UrlsFurther.
Context {P : Platform}.

(** X11.  The id comes back.  For a non-empty id the URL ends in one more
    path segment, which holds no [/], [?] or [#] whatever the id holds,
    and from which percent-decoding recovers the id, byte for byte. *)
Theorem id_segment_round_trip (this : FhirResourceBuilder) (id : string) :
  id <> EmptyString ->
  buildUrl this (Some id) None
  = (baseUrl this ++ "/" ++ resourceType this ++ "/" ++ encodeURIComponent id)%string
  /\ percent_decode (encodeURIComponent id) = id
  /\ occurs "/" (encodeURIComponent id) = false
  /\ occurs "?" (encodeURIComponent id) = false
  /\ occurs "#" (encodeURIComponent id) = false.
Proof.
  intros Hne. destruct (encodeURIComponent_separators id) as (H1 & H2 & H3 & _).
  repeat split; auto using percent_decode_encode.
  unfold buildUrl. destruct id as [|c r]; [congruence|].
  cbn [truthy]. now rewrite !append_assoc.
Qed.

(** X12.  Different ids, different URLs.  Two non-empty ids that differ
    never lead to the same URL, with or without the same query. *)
Theorem buildUrl_separates_ids (this : FhirResourceBuilder)
    (id1 id2 : string) (query : option QueryParams) :
  id1 <> EmptyString -> id2 <> EmptyString ->
  id1 <> id2 ->
  buildUrl this (Some id1) query <> buildUrl this (Some id2) query.
Proof.
  intros H1 H2 Hd H. apply Hd.
  assert (Hsuffix : forall id, id <> EmptyString ->
            buildUrl this (Some id) query
            = ((baseUrl this ++ "/" ++ resourceType this ++ "/")
               ++ encodeURIComponent id
               ++ match query with
                  | Some (entry :: q) =>
                      "?" ++ URLSearchParams_toString
                               (fold_left append_entry (entry :: q) [])
                  | _ => ""
                  end)%string).
  { intros id Hne. unfold buildUrl. destruct id as [|c r]; [congruence|].
    cbn [truthy].
    destruct query as [[|entry q]|]; cbn [List.length Nat.ltb Nat.leb];
      rewrite ?append_empty_r, !append_assoc; reflexivity. }
  rewrite (Hsuffix id1 H1), (Hsuffix id2 H2) in H.
  apply append_cancel_l, append_cancel_r in H.
  rewrite <- (percent_decode_encode id1), <- (percent_decode_encode id2).
  now rewrite H.
Qed.

(** X13.  The query comes back.  For a mapping with at least one entry the
    URL is the one without query, then [?], then a query string from which
    the form parser recovers every name and value: one pair per scalar,
    one per element of a list, in the order given, whatever bytes the
    names and values hold. *)
Theorem query_round_trip (this : FhirResourceBuilder) (id : option string)
    (query : QueryParams) :
  query <> [] ->
  exists qs,
    buildUrl this id (Some query) = (buildUrl this id None ++ "?" ++ qs)%string
    /\ parse_query qs = flat_map occurrences query.
Proof.
  intros Hne. exists (URLSearchParams_toString (fold_left append_entry query [])).
  split.
  - unfold buildUrl. destruct query as [|entry q]; [congruence|]. reflexivity.
  - now rewrite parse_query_toString, fold_append_entry.
Qed.

(** Entries without values.  A mapping whose entries are all empty
    lists is not dropped: the URL ends in a bare [?]. *)
Theorem empty_lists_leave_bare_question_mark (this : FhirResourceBuilder)
    (id : option string) (query : QueryParams) :
  query <> [] ->
  (forall entry, In entry query -> snd entry = QArray []) ->
  buildUrl this id (Some query) = (buildUrl this id None ++ "?")%string.
Proof.
  intros Hne Hall.
  assert (Hflat : flat_map occurrences query = []).
  { induction query as [|entry q IH]; [reflexivity|].
    cbn [flat_map]. unfold occurrences at 1.
    rewrite (Hall entry (or_introl eq_refl)). cbn [map app].
    destruct q as [|entry' q]; [reflexivity|].
    apply IH; [discriminate|]. intros e He. apply Hall. now right. }
  unfold buildUrl. destruct query as [|entry q]; [congruence|].
  cbn [List.length Nat.ltb Nat.leb].
  now rewrite fold_append_entry, Hflat.
Qed.

(** X14.  The credentials come back.  The body of the token request is a
    form of exactly two fields, [client_id] and [client_secret] in that
    order, from which the form parser recovers both values as configured,
    whatever bytes they hold. *)
Theorem token_request_body_round_trip (o : OAuth) :
  exists form,
    body (token_request o) = Some form
    /\ parse_query form = [("client_id", clientId o);
                           ("client_secret", clientSecret o)].
Proof.
  eexists. split; [reflexivity|]. apply parse_query_toString.
Qed.

(** X15.  The name comes back from [byName].  The URL of [byName] is the
    collection URL, then [?], then a query string from which the form
    parser recovers the single pair [name] and the name as given. *)
Theorem byName_query_round_trip (this : OrganizationService)
    (name token : string) :
  exists qs,
    url (byName_request this name token)
    = (org_baseUrl this ++ "/" ++ org_resourceType this ++ "?" ++ qs)%string
    /\ parse_query qs = [("name", name)].
Proof.
  exists ("name=" ++ encodeURIComponent name)%string. split; [reflexivity|].
  destruct (encodeURIComponent_separators name) as (_ & _ & _ & Hamp & _).
  set (v := encodeURIComponent name) in *.
  unfold parse_query.
  rewrite split_on_absent by (simpl; exact Hamp).
  cbn [filter]. change (nonempty ("name=" ++ v)) with true. cbn [map].
  change ("name=" ++ v)%string with ("name" ++ String "=" v)%string.
  rewrite (split_pair_first "name" v eq_refl). subst v.
  now rewrite form_decode_encodeURIComponent.
Qed.

End UrlsFurther.

(** ** The organization service, further *)

Lemma units_alike (c : ascii) :
  rendered_alike c = true ->
  (if uri_unreserved c then String c EmptyString else percent_byte c)
  = form_byte c.
Proof.
  destruct c as [[] [] [] [] [] [] [] []]; intros H;
    first [reflexivity | discriminate H].
Qed.

Lemma units_differ (c : ascii) (x y : string) :
  rendered_alike c = false ->
  ((if uri_unreserved c then String c EmptyString else percent_byte c) ++ x
   <> form_byte c ++ y)%string.
Proof.
  destruct c as [[] [] [] [] [] [] [] []]; intros H;
    first [discriminate H | intros E; discriminate E].
Qed.

(** The two encoders agree on a text exactly when all its bytes are
    rendered alike. *)
Lemma encoders_agree (s : string) :
  encodeURIComponent s = form_encode s <-> every rendered_alike s = true.
Proof.
  induction s as [|c r IH]; [split; reflexivity|].
  change (encodeURIComponent (String c r))
    with ((if uri_unreserved c then String c EmptyString else percent_byte c)
          ++ encodeURIComponent r)%string.
  change (form_encode (String c r)) with (form_byte c ++ form_encode r)%string.
  cbn [every]. destruct (rendered_alike c) eqn:Hc; cbn [andb].
  - rewrite (units_alike c Hc). rewrite <- IH. split.
    + apply append_cancel_l.
    + now intros ->.
  - split; [|discriminate]. intros E. exfalso.
    exact (units_differ c _ _ Hc E).
Qed.

Section OrganizationFurther.
Context {P : Platform}.

(** X16.  [byName] and the builder's search.  [byName] asks for the same
    URL as [get] with the query [{name}] exactly when the name holds no
    space and none of [! ~ ' ( )]; on those bytes the two spell the same
    name differently. *)
Theorem byName_agrees_with_builder (baseUrl name token : string) :
  let this := new_OrganizationService baseUrl in
  url (byName_request this name token)
  = buildUrl (org_fhir this) None (Some [("name", QString name)])
  <-> every rendered_alike name = true.
Proof.
  intros this. rewrite <- encoders_agree.
  assert (Hl : url (byName_request this name token)
               = ((baseUrl ++ "/Organization?name=") ++ encodeURIComponent name)%string).
  { unfold byName_request, this. cbn. now rewrite !append_assoc. }
  assert (Hr : buildUrl (org_fhir this) None (Some [("name", QString name)])
               = ((baseUrl ++ "/Organization?name=") ++ form_encode name)%string).
  { unfold buildUrl, this. cbn. now rewrite !append_assoc. }
  rewrite Hl, Hr. split.
  - apply append_cancel_l.
  - now intros ->.
Qed.

(** The empty id.  An empty id is no id: [byId] then sends the
    request of a search without criteria, and [put] and [patch] address
    the collection URL, the one [post] uses. *)
Theorem empty_id_addresses_the_collection (this : FhirResourceBuilder)
    (org : OrganizationService) (resource : json number)
    (operations : list (json number)) (env : Env) (w : World) :
  byId org "" env w = perform (org_fhir org) (Get None) env w
  /\ target this (Put {| put_pathParams := "" |} resource)
     = target this (Post resource)
  /\ target this (Patch {| put_pathParams := "" |} operations)
     = target this (Post resource)
  /\ target this (Post resource)
     = (baseUrl this ++ "/" ++ resourceType this)%string.
Proof.
  repeat split. now rewrite byId_get.
Qed.

(** X17.  One response, two classifications.  On the same response, with
    a status outside 2xx and an outcome as body, [byId] fails with the
    [FhirOperationOutcomeError] built from it, as the builder does, and
    [byName] with its plain [Error]. *)
Theorem organization_methods_classify_differently (baseUrl id name : string)
    (env : Env) (w w1 : World) (token : jsval) (tok : string)
    (response : Response) (v : json number) (m : string) :
  let this := new_OrganizationService baseUrl in
  getAccessToken env w = (inr token, w1) ->
  ToString token = inr tok ->
  (forall request, fetch_reply env request = Some response) ->
  ok response = false ->
  outcome_body response v ->
  message_text v m ->
  fst (byId this id env w)
  = inl (FhirOperationOutcomeError m v (status response))
  /\ fst (byName this name env w)
     = inl (Error ("Failed to search Organization: "
                   ++ Z_toString (status response) ++ " " ++ text response)).
Proof.
  intros this Hg Ht Hf Hok Hb Hm. split.
  - rewrite byId_get.
    destruct (non_2xx_fails (org_fhir this)
                (Get (Some {| pathParams := Some id; queryParams := None |}))
                env w w1 token tok response Hg Ht (Hf _) Hok) as (H & _).
    now rewrite (H v m Hb Hm).
  - rewrite (byName_run this name env w w1 token tok Hg Ht), Hf, Hok.
    reflexivity.
Qed.

End OrganizationFurther.

(** ** A token reply without a token *)

Section MissingToken.
Context {P : Platform}.

(** X18.  A reply without [access_token].  When a 2xx token reply decodes
    to a value that has no [access_token], nothing fails: [getAccessToken]
    returns [undefined], and the operation that asked for the token sends
    its request with [Authorization: Bearer undefined]. *)
Theorem missing_access_token_is_sent_as_undefined (this : FhirResourceBuilder)
    (op : operation) (env : Env) (w : World) (response : Response)
    (data : json number) (expires_in issued_at : string) :
  ~ reusable (Date_now env) (oauth w) ->
  fetch_reply env (token_request (oauth w)) = Some response ->
  ok response = true ->
  JSON_parse (text response) = Some data ->
  data <> JNull ->
  ToString (prop data "expires_in") = inr expires_in ->
  ToString (prop data "issued_at") = inr issued_at ->
  prop data "access_token" = None ->
  fst (getAccessToken env w) = inr None
  /\ sent (snd (perform this op env w))
     = (sent w ++ [token_request (oauth w);
                   resource_request (target this op) (verb op) "undefined"
                     (content_type op) (payload op)])%list.
Proof.
  intros Hn Hf Hok Hp Hnn He Hi Ha.
  assert (Hg : getAccessToken env w
               = (inr None,
                  {| oauth := with_tokenState (oauth w)
                       (Some {| accessToken := None;
                                expiresAt := num_add (parseInt issued_at)
                                  (num_mul (parseInt expires_in) (Int 1000)) |});
                     sent := (sent w ++ [token_request (oauth w)])%list |})).
  { rewrite (getAccessToken_refresh env w (not_reusable_false env w Hn)).
    rewrite (fetchToken_accepts env w response data expires_in issued_at
               Hf Hok Hp Hnn He Hi), Ha. reflexivity. }
  split; [now rewrite Hg|].
  rewrite (perform_sent this op env w _ None "undefined" Hg eq_refl).
  cbn [sent]. now rewrite <- app_assoc.
Qed.

End MissingToken.

(** ** The properties at work on concrete exchanges *)

#[local] Existing Instance Demo.platform.

(** A token expiring 61 s from now is reused; one expiring 59 s from now
    is fetched again. *)
Lemma getAccessToken_reuses_or_fetches_witness :
  getAccessToken (Demo.env 1000 None None) (Demo.holding "tok-0" (1000 + 61000))
  = (inr (Some (JStr "tok-0")), Demo.holding "tok-0" (1000 + 61000))
  /\ sent (snd (getAccessToken (Demo.env 1000 None None)
                  (Demo.holding "tok-0" (1000 + 59000))))
     = [token_request Demo.credentials].
Proof.
  split.
  - destruct (getAccessToken_reuses_or_fetches (P := Demo.platform)
                (Demo.env 1000 None None) (Demo.holding "tok-0" (1000 + 61000)))
      as (_ & _ & H).
    exact (proj1 (H _ eq_refl) eq_refl).
  - destruct (getAccessToken_reuses_or_fetches (P := Demo.platform)
                (Demo.env 1000 None None) (Demo.holding "tok-0" (1000 + 59000)))
      as (_ & _ & H).
    exact (proj2 (H _ eq_refl) eq_refl).
Defined.

(** The reply of the token endpoint is decoded and stored:
    1661835069462 + 3599 * 1000 = 1661838668462. *)
Lemma fetchToken_stores_decoded_state_witness :
  getAccessToken
    (Demo.env 1661835070000 (Demo.reply 200 (Demo.stringify Demo.token_data)) None)
    Demo.empty_handed
  = (inr (Some (JStr "tok-1")),
     {| oauth := with_tokenState Demo.credentials
                   (Some {| accessToken := Some (JStr "tok-1");
                            expiresAt := Int 1661838668462 |});
        sent := [token_request Demo.credentials] |}).
Proof.
  refine (proj2 (fetchToken_stores_decoded_state (P := Demo.platform)
                   (Demo.env 1661835070000
                      (Demo.reply 200 (Demo.stringify Demo.token_data)) None)
                   Demo.empty_handed
                   {| status := 200; text := Demo.stringify Demo.token_data |}
                   Demo.token_data "tok-1" "3599" "1661835069462"
                   eq_refl eq_refl eq_refl eq_refl eq_refl eq_refl _ _ eq_refl) _).
  - split; [discriminate | reflexivity].
  - split; [discriminate | reflexivity].
  - intros (ts & e & H & _). discriminate H.
Defined.

(** A 401 from the token endpoint: the failure, one request, no token. *)
Lemma getAccessToken_rejected_witness :
  getAccessToken (Demo.env 1000 (Demo.reply 401 "unauthorized") None)
    Demo.empty_handed
  = (inl (Error "Failed to fetch access token: 401 unauthorized"),
     {| oauth := Demo.credentials; sent := [token_request Demo.credentials] |}).
Proof.
  refine (getAccessToken_rejected (P := Demo.platform)
            (Demo.env 1000 (Demo.reply 401 "unauthorized") None)
            Demo.empty_handed {| status := 401; text := "unauthorized" |}
            _ eq_refl eq_refl).
  intros (ts & e & H & _). discriminate H.
Defined.

(** The failure of the token endpoint is not an error of a kind of its own:
    it is a plain [Error], named [Error], without a [status]. *)
Lemma token_failure_is_plain_error :
  exists e,
    fst (getAccessToken (Demo.env 1000 (Demo.reply 401 "unauthorized") None)
           Demo.empty_handed) = inl e
    /\ e = Error "Failed to fetch access token: 401 unauthorized"
    /\ error_name e = "Error"
    /\ error_status e = None
    /\ ~ is_AuthenticationError e 401.
Proof.
  eexists. split; [reflexivity|]. repeat split.
  intros [Hname _]. discriminate Hname.
Qed.

(** The message of the 404 outcome is its diagnostics. *)
Lemma outcome_error_message_witness :
  new_FhirOperationOutcomeError (P := Demo.platform) Demo.not_found 404
  = inr (FhirOperationOutcomeError "not found" Demo.not_found 404).
Proof.
  refine (proj1 (outcome_error_message (P := Demo.platform) Demo.not_found 404 _)
            "not found" eq_refl).
  discriminate.
Defined.

(** A 404 carrying an outcome fails with the typed error. *)
Lemma non_2xx_fails_witness :
  perform Demo.patients
    (Get (Some {| pathParams := Some "123"; queryParams := None |}))
    (Demo.env 1000 None (Demo.reply 404 (Demo.stringify Demo.not_found)))
    (Demo.holding "tok-0" 3600000)
  = (inl (FhirOperationOutcomeError "not found" Demo.not_found 404),
     after_request (Demo.holding "tok-0" 3600000)
       (resource_request "https://x/fhir/Patient/123" "GET" "tok-0"
          "application/json" None)).
Proof.
  refine (proj1 (non_2xx_fails (P := Demo.platform) Demo.patients
                   (Get (Some {| pathParams := Some "123"; queryParams := None |}))
                   (Demo.env 1000 None (Demo.reply 404 (Demo.stringify Demo.not_found)))
                   (Demo.holding "tok-0" 3600000) (Demo.holding "tok-0" 3600000)
                   (Some (JStr "tok-0")) "tok-0"
                   {| status := 404; text := Demo.stringify Demo.not_found |}
                   eq_refl eq_refl eq_refl eq_refl)
            Demo.not_found "not found" _ _).
  - split; reflexivity.
  - exists (Some (JStr "not found")). split; reflexivity.
Defined.

(** C2 at an outcome whose diagnostics cannot be converted to a string.
    The status is 404, the body parses and its [resourceType] is
    ['OperationOutcome'], so a [FhirOperationOutcomeError] carrying the
    payload and the status is due; but the construction of that error
    throws a [TypeError] inside the [try] block, the [catch] swallows it,
    and [get] fails with the generic [Error]. *)
Lemma get_unprintable_outcome :
  let response := {| status := 404; text := Demo.stringify Demo.unprintable |} in
  outcome_body (P := Demo.platform) response Demo.unprintable
  /\ new_FhirOperationOutcomeError (P := Demo.platform) Demo.unprintable 404
     = inl TypeError
  /\ fst (get Demo.patients
            (Some {| pathParams := Some "123"; queryParams := None |})
            (Demo.env 1000 None (Some response))
            (Demo.holding "tok-0" 3600000))
     = inl (Error ("FHIR GET Patient gagal: 404 " ++ text response))
  /\ forall m v s,
       fst (get Demo.patients
              (Some {| pathParams := Some "123"; queryParams := None |})
              (Demo.env 1000 None (Some response))
              (Demo.holding "tok-0" 3600000))
       <> inl (FhirOperationOutcomeError m v s).
Proof.
  cbv zeta. repeat split. intros m v s H. vm_compute in H. discriminate H.
Qed.

(** A PATCH: bearer token, JSON Patch content type, serialized operations. *)
Lemma requests_carry_bearer_token_witness :
  sent (snd (perform Demo.patients
               (Patch {| put_pathParams := "123" |} Demo.rename)
               (Demo.env 1000 None None) (Demo.holding "tok-0" 3600000)))
  = [ {| url := "https://x/fhir/Patient/123";
         method := "PATCH";
         headers := [("Authorization", "Bearer tok-0");
                     ("Content-Type", "application/json-patch+json")];
         body := Some (Demo.stringify (JArr Demo.rename)) |} ].
Proof.
  exact (requests_carry_bearer_token (P := Demo.platform) Demo.patients
           (Patch {| put_pathParams := "123" |} Demo.rename)
           (Demo.env 1000 None None) (Demo.holding "tok-0" 3600000)
           (Demo.holding "tok-0" 3600000) (Some (JStr "tok-0")) "tok-0"
           eq_refl eq_refl).
Defined.

(** Two PUTs of the same resource, the first fetching a token, the second
    reusing it: same URL, same payload. *)
Lemma put_twice_same_request_witness :
  let call := put (P := Demo.platform) Demo.patients
                {| put_pathParams := "123" |} Demo.patient in
  let env := Demo.env 1661835070000
               (Demo.reply 200 (Demo.stringify Demo.token_data))
               (Demo.reply 200 (Demo.stringify Demo.patient)) in
  let q := resource_request "https://x/fhir/Patient/123" "PUT" "tok-1"
             "application/json" (Some (Demo.stringify Demo.patient)) in
  added Demo.empty_handed (snd (call env Demo.empty_handed))
  = [token_request Demo.credentials; q]
  /\ added (snd (call env Demo.empty_handed))
       (snd (call env (snd (call env Demo.empty_handed))))
     = [q]
  /\ url q = buildUrl (P := Demo.platform) Demo.patients (Some "123") None
  /\ body q = Some (Demo.stringify Demo.patient).
Proof.
  cbv zeta. split; [reflexivity | split; [reflexivity|]].
  set (q := resource_request "https://x/fhir/Patient/123" "PUT" "tok-1"
              "application/json" (Some (Demo.stringify Demo.patient))).
  set (env := Demo.env 1661835070000
                (Demo.reply 200 (Demo.stringify Demo.token_data))
                (Demo.reply 200 (Demo.stringify Demo.patient))).
  destruct (put_twice_same_request (P := Demo.platform) Demo.patients "123"
              Demo.patient env env Demo.empty_handed) as [H _].
  destruct (H q q (or_intror (or_introl eq_refl)) eq_refl
              (or_introl eq_refl) eq_refl) as (_ & _ & Hu & Hb).
  exact (conj Hu Hb).
Defined.

(** [byName] on the 404 outcome: a plain [Error], where [get] on the same
    response throws the typed one. *)
Lemma byName_fails_with_plain_error_witness :
  byName (P := Demo.platform) Demo.organizations "RS Sehat"
    (Demo.env 1000 None (Demo.reply 404 (Demo.stringify Demo.not_found)))
    (Demo.holding "tok-0" 3600000)
  = (inl (Error ("Failed to search Organization: 404 "
                 ++ Demo.stringify Demo.not_found)),
     after_request (Demo.holding "tok-0" 3600000)
       (byName_request Demo.organizations "RS Sehat" "tok-0")).
Proof.
  exact (proj1 (byName_fails_with_plain_error (P := Demo.platform)
                  "https://x/fhir" "RS Sehat"
                  (Demo.env 1000 None (Demo.reply 404 (Demo.stringify Demo.not_found)))
                  (Demo.holding "tok-0" 3600000))
           (Demo.holding "tok-0" 3600000) (Some (JStr "tok-0")) "tok-0"
           {| status := 404; text := Demo.stringify Demo.not_found |}
           eq_refl eq_refl eq_refl eq_refl).
Defined.

(** ** Further runs *)

Example encode_reserved : encodeURIComponent "a b/c?d" = "a%20b%2Fc%3Fd".
Proof. reflexivity. Qed.

Example query_is_form_encoded :
  URLSearchParams_toString [("name", "RS Sehat"); ("tag", "a&b")]
  = "name=RS+Sehat&tag=a%26b".
Proof. reflexivity. Qed.

Example parseInt_prefix : parseInt "  3599 seconds" = Int 3599.
Proof. reflexivity. Qed.

Example parseInt_signed : parseInt "-12" = Int (-12).
Proof. reflexivity. Qed.

Example parseInt_not_a_number : parseInt "soon" = NaN.
Proof. reflexivity. Qed.

Example status_rendering : Z_toString 404 = "404".
Proof. reflexivity. Qed.

(** Two calls in a row with a fresh token on the first: one fetch. *)
Example token_is_reused :
  let env := Demo.env 1661835070000
               (Demo.reply 200 (Demo.stringify Demo.token_data)) None in
  let w1 := snd (getAccessToken env Demo.empty_handed) in
  fst (getAccessToken env w1) = inr (Some (JStr "tok-1"))
  /\ sent (snd (getAccessToken env w1)) = [token_request Demo.credentials].
Proof. split; reflexivity. Qed.

(** A 500 whose body is not JSON: the generic error, status and body in
    its message. *)
Example plain_500 :
  fst (get Demo.patients None
         (Demo.env 1000 None (Demo.reply 500 "internal error"))
         (Demo.holding "tok-0" 3600000))
  = inl (Error "FHIR GET Patient gagal: 500 internal error").
Proof. reflexivity. Qed.

(** [get] on the response [byName] turned into a plain error. *)
Example get_not_found :
  fst (byId Demo.organizations "42"
         (Demo.env 1000 None (Demo.reply 404 (Demo.stringify Demo.not_found)))
         (Demo.holding "tok-0" 3600000))
  = inl (FhirOperationOutcomeError "not found" Demo.not_found 404).
Proof. reflexivity. Qed.

(** A token without expiry information is stored with [NaN] and never
    reused. *)
Example missing_expiry_always_fetches :
  forall t : Z,
    let w := {| oauth := with_tokenState Demo.credentials
                           (Some {| accessToken := Some (JStr "tok-0");
                                    expiresAt := NaN |});
                sent := [] |} in
    sent (snd (getAccessToken (Demo.env t None None) w))
    = [token_request Demo.credentials].
Proof. intros t. reflexivity. Qed.

(** ** The further properties at work *)

(** The token fetched at 1661835070000 expires at 1661838668462: reused
    one millisecond before 1661838608462, fetched again at that instant. *)
Lemma fetched_token_reuse_window_witness :
  let env := Demo.env 1661835070000
               (Demo.reply 200 (Demo.stringify Demo.token_data)) None in
  let w1 := snd (getAccessToken env Demo.empty_handed) in
  getAccessToken (Demo.env 1661838608461 None None) w1
  = (inr (Some (JStr "tok-1")), w1)
  /\ sent (snd (getAccessToken (Demo.env 1661838608462 None None) w1))
     = [token_request Demo.credentials; token_request Demo.credentials].
Proof.
  cbv zeta.
  assert (Hn : ~ reusable 1661835070000 (oauth Demo.empty_handed)).
  { intros (ts & e & H & _). discriminate H. }
  assert (D1 : is_decimal "3599") by (split; [discriminate | reflexivity]).
  assert (D2 : is_decimal "1661835069462") by (split; [discriminate | reflexivity]).
  split.
  - refine (proj1 (fetched_token_reuse_window (P := Demo.platform)
                     (Demo.env 1661835070000
                        (Demo.reply 200 (Demo.stringify Demo.token_data)) None)
                     (Demo.env 1661838608461 None None)
                     Demo.empty_handed
                     {| status := 200; text := Demo.stringify Demo.token_data |}
                     Demo.token_data "tok-1" "3599" "1661835069462"
                     Hn eq_refl eq_refl eq_refl eq_refl eq_refl eq_refl D1 D2
                     eq_refl) _).
    reflexivity.
  - refine (proj2 (fetched_token_reuse_window (P := Demo.platform)
                     (Demo.env 1661835070000
                        (Demo.reply 200 (Demo.stringify Demo.token_data)) None)
                     (Demo.env 1661838608462 None None)
                     Demo.empty_handed
                     {| status := 200; text := Demo.stringify Demo.token_data |}
                     Demo.token_data "tok-1" "3599" "1661835069462"
                     Hn eq_refl eq_refl eq_refl eq_refl eq_refl eq_refl D1 D2
                     eq_refl) _).
    cbv. discriminate.
Defined.

(** A token reply with nothing but the token: returned, stored without
    expiry, fetched again a millisecond later. *)
Lemma token_without_expiry_is_never_reused_witness :
  let env := Scenario.env 1000
               (Demo.reply 200 (Demo.stringify Scenario.bare_token)) None in
  let w1 := {| oauth := with_tokenState (oauth Scenario.fresh)
                 (Some {| accessToken := Some (JStr "tok-2"); expiresAt := NaN |});
               sent := [token_request (oauth Scenario.fresh)] |} in
  getAccessToken env Scenario.fresh = (inr (Some (JStr "tok-2")), w1)
  /\ sent (snd (getAccessToken (Scenario.env 1001 None None) w1))
     = [token_request (oauth Scenario.fresh); token_request (oauth Scenario.fresh)].
Proof.
  cbv zeta.
  refine (token_without_expiry_is_never_reused (P := Scenario.platform)
            (Scenario.env 1000
               (Demo.reply 200 (Demo.stringify Scenario.bare_token)) None)
            (Scenario.env 1001 None None) Scenario.fresh
            {| status := 200; text := Demo.stringify Scenario.bare_token |}
            Scenario.bare_token "undefined" "undefined"
            _ eq_refl eq_refl eq_refl _ eq_refl eq_refl (or_introl eq_refl)).
  - intros (ts & e & H & _). discriminate H.
  - discriminate.
Defined.

(** A refused token fetch on an expired cache: the old token stays. *)
Lemma failed_token_call_keeps_cache_witness :
  let env := Demo.env 5000 (Demo.reply 503 "busy") None in
  let w := Demo.holding "tok-0" 4000 in
  getAccessToken env w
  = (inl (Error "Failed to fetch access token: 503 busy"),
     after_request w (token_request Demo.credentials))
  /\ oauth (snd (getAccessToken env w)) = oauth w.
Proof.
  cbv zeta. split; [reflexivity|].
  exact (proj1 (proj2 (failed_token_call_keeps_cache (P := Demo.platform)
                         (Demo.env 5000 (Demo.reply 503 "busy") None)
                         (Demo.holding "tok-0" 4000) _ _ eq_refl))).
Defined.

(** A 200 from the token endpoint with a body that is no JSON, and one
    with the body [null]. *)
Lemma undecodable_token_reply_witness :
  fst (getAccessToken (Demo.env 1000 (Demo.reply 200 "<html>") None)
         Demo.empty_handed) = inl SyntaxError
  /\ fst (getAccessToken (Scenario.env 1000 (Demo.reply 200 "null") None)
            Scenario.fresh) = inl (TypeError (P := Scenario.platform)).
Proof.
  split.
  - refine (f_equal fst
              (proj1 (undecodable_token_reply (P := Demo.platform)
                        (Demo.env 1000 (Demo.reply 200 "<html>") None)
                        Demo.empty_handed {| status := 200; text := "<html>" |}
                        _ eq_refl eq_refl) eq_refl)).
    intros (ts & e & H & _). discriminate H.
  - refine (f_equal fst
              (proj2 (undecodable_token_reply (P := Scenario.platform)
                        (Scenario.env 1000 (Demo.reply 200 "null") None)
                        Scenario.fresh {| status := 200; text := "null" |}
                        _ eq_refl eq_refl) eq_refl)).
    intros (ts & e & H & _). discriminate H.
Defined.

(** The token a fetch returns is the one in the cache afterwards. *)
Lemma returned_token_is_cached_witness :
  let env := Demo.env 1661835070000
               (Demo.reply 200 (Demo.stringify Demo.token_data)) None in
  exists ts,
    tokenState (oauth (snd (getAccessToken env Demo.empty_handed))) = Some ts
    /\ accessToken ts = Some (JStr "tok-1").
Proof.
  exact (proj1 (returned_token_is_cached (P := Demo.platform)
                  (Demo.env 1661835070000
                     (Demo.reply 200 (Demo.stringify Demo.token_data)) None)
                  Demo.empty_handed _ (Some (JStr "tok-1")) eq_refl)).
Defined.

(** A 200 whose body is an outcome is handed back, not thrown. *)
Lemma ok_reply_is_returned_as_is_witness :
  fst (perform Demo.patients (Get None)
         (Demo.env 1000 None (Demo.reply 200 (Demo.stringify Demo.not_found)))
         (Demo.holding "tok-0" 3600000))
  = inr Demo.not_found.
Proof.
  exact (f_equal fst
           (proj1 (ok_reply_is_returned_as_is (P := Demo.platform)
                     Demo.patients (Get None)
                     (Demo.env 1000 None
                        (Demo.reply 200 (Demo.stringify Demo.not_found)))
                     (Demo.holding "tok-0" 3600000) (Demo.holding "tok-0" 3600000)
                     (Some (JStr "tok-0")) "tok-0"
                     {| status := 200; text := Demo.stringify Demo.not_found |}
                     eq_refl eq_refl eq_refl eq_refl)
              Demo.not_found eq_refl)).
Defined.

(** A POST that fetches the token, then a search by name that reuses it. *)
Lemma next_operation_reuses_token_witness :
  let env := Demo.env 1661835070000
               (Demo.reply 200 (Demo.stringify Demo.token_data))
               (Demo.reply 200 (Demo.stringify Demo.patient)) in
  let w2 := snd (perform Demo.patients (Post Demo.patient) env Demo.empty_handed) in
  sent (snd (byName Demo.organizations "RS Sehat" env w2))
  = (sent w2 ++ [byName_request Demo.organizations "RS Sehat" "tok-1"])%list.
Proof.
  cbv zeta.
  refine (proj2 (next_operation_reuses_token (P := Demo.platform)
                   Demo.patients Demo.patients Demo.organizations
                   (Post Demo.patient) (Get None) "RS Sehat"
                   (Demo.env 1661835070000
                      (Demo.reply 200 (Demo.stringify Demo.token_data))
                      (Demo.reply 200 (Demo.stringify Demo.patient)))
                   (Demo.env 1661835070000
                      (Demo.reply 200 (Demo.stringify Demo.token_data))
                      (Demo.reply 200 (Demo.stringify Demo.patient)))
                   Demo.empty_handed _ (Some (JStr "tok-1")) "tok-1"
                   eq_refl eq_refl _)).
  eexists. exists 1661838668462. repeat split.
Defined.

(** A 401 from the token endpoint stops a PUT before it is sent. *)
Lemma refused_token_stops_every_operation_witness :
  perform Demo.patients (Put {| put_pathParams := "123" |} Demo.patient)
    (Demo.env 1000 (Demo.reply 401 "unauthorized")
       (Demo.reply 200 (Demo.stringify Demo.patient)))
    Demo.empty_handed
  = (inl (Error "Failed to fetch access token: 401 unauthorized"),
     {| oauth := Demo.credentials; sent := [token_request Demo.credentials] |}).
Proof.
  refine (proj1 (refused_token_stops_every_operation (P := Demo.platform)
                   (Demo.env 1000 (Demo.reply 401 "unauthorized")
                      (Demo.reply 200 (Demo.stringify Demo.patient)))
                   Demo.empty_handed {| status := 401; text := "unauthorized" |}
                   _ eq_refl eq_refl)
            Demo.patients (Put {| put_pathParams := "123" |} Demo.patient)).
  intros (ts & e & H & _). discriminate H.
Defined.

(** An id full of separators stays one segment and comes back. *)
Lemma id_segment_round_trip_witness :
  buildUrl (P := Demo.platform) Demo.patients (Some "a/b?c#d e") None
  = "https://x/fhir/Patient/a%2Fb%3Fc%23d%20e"
  /\ percent_decode "a%2Fb%3Fc%23d%20e" = "a/b?c#d e".
Proof.
  destruct (id_segment_round_trip (P := Demo.platform) Demo.patients "a/b?c#d e")
    as (H1 & H2 & _); [discriminate|].
  exact (conj H1 H2).
Defined.

(** A space and a plus sign in an id do not collide. *)
Lemma buildUrl_separates_ids_witness :
  buildUrl (P := Demo.platform) Demo.patients (Some "a b") None
  <> buildUrl (P := Demo.platform) Demo.patients (Some "a+b") None.
Proof.
  apply (buildUrl_separates_ids (P := Demo.platform)); discriminate.
Defined.

(** Names and values with separators in them come back as given. *)
Lemma query_round_trip_witness :
  exists qs,
    buildUrl (P := Demo.platform) Demo.patients None
      (Some [("name", QString "John & Co"); ("tag", QArray ["a=b"; "c d"])])
    = ("https://x/fhir/Patient" ++ "?" ++ qs)%string
    /\ parse_query qs = [("name", "John & Co"); ("tag", "a=b"); ("tag", "c d")].
Proof.
  apply (query_round_trip (P := Demo.platform) Demo.patients None
           [("name", QString "John & Co"); ("tag", QArray ["a=b"; "c d"])]).
  discriminate.
Defined.

(** The same 404 outcome through [byId] and through [byName]. *)
Lemma organization_methods_classify_differently_witness :
  let env := Demo.env 1000 (Demo.reply 404 (Demo.stringify Demo.not_found))
               (Demo.reply 404 (Demo.stringify Demo.not_found)) in
  fst (byId Demo.organizations "42" env (Demo.holding "tok-0" 3600000))
  = inl (FhirOperationOutcomeError "not found" Demo.not_found 404)
  /\ fst (byName Demo.organizations "RS Sehat" env (Demo.holding "tok-0" 3600000))
     = inl (Error ("Failed to search Organization: 404 "
                   ++ Demo.stringify Demo.not_found)).
Proof.
  cbv zeta.
  refine (organization_methods_classify_differently (P := Demo.platform)
            "https://x/fhir" "42" "RS Sehat"
            (Demo.env 1000 (Demo.reply 404 (Demo.stringify Demo.not_found))
               (Demo.reply 404 (Demo.stringify Demo.not_found)))
            (Demo.holding "tok-0" 3600000) (Demo.holding "tok-0" 3600000)
            (Some (JStr "tok-0")) "tok-0"
            {| status := 404; text := Demo.stringify Demo.not_found |}
            Demo.not_found "not found" eq_refl eq_refl _ eq_refl _ _).
  - intros request. unfold Demo.env, fetch_reply.
    destruct (String.eqb _ _); reflexivity.
  - split; reflexivity.
  - exists (Some (JStr "not found")). split; reflexivity.
Defined.

(** A token reply [{}]: the search goes out with [Bearer undefined]. *)
Lemma missing_access_token_is_sent_as_undefined_witness :
  sent (snd (perform (P := Scenario.platform)
               (fhir Scenario.client "Patient") (Get None)
               (Scenario.env 1000 (Demo.reply 200 "{}") None) Scenario.fresh))
  = [token_request (oauth Scenario.fresh);
     {| url := "https://api-satusehat.kemkes.go.id/fhir-r4/v1/Patient";
        method := "GET";
        headers := [("Authorization", "Bearer undefined");
                    ("Content-Type", "application/json")];
        body := None |}].
Proof.
  refine (proj2 (missing_access_token_is_sent_as_undefined (P := Scenario.platform)
                   (fhir Scenario.client "Patient") (Get None)
                   (Scenario.env 1000 (Demo.reply 200 "{}") None) Scenario.fresh
                   {| status := 200; text := "{}" |} (JObj [])
                   "undefined" "undefined"
                   _ eq_refl eq_refl eq_refl _ eq_refl eq_refl eq_refl)).
  - intros (ts & e & H & _). discriminate H.
  - discriminate.
Defined.

(** ** Further runs, continued *)

(** Credentials with separators in them, on the wire. *)
Example token_request_of_scenario :
  token_request (oauth Scenario.fresh)
  = {| url := "https://api-satusehat.kemkes.go.id/oauth2/v1/accesstoken?grant_type=client_credentials";
       method := "POST";
       headers := [("Content-Type", "application/x-www-form-urlencoded")];
       body := Some "client_id=id%26x%3D1&client_secret=s3cr3t+key" |}.
Proof. reflexivity. Qed.

(** A session: a search, a forced refresh, a lookup by name. *)
Example session_log :
  let env := Scenario.env 1661835070000
               (Demo.reply 200 (Demo.stringify Demo.token_data))
               (Demo.reply 200 (Demo.stringify Demo.patient)) in
  map url (sent (run_calls Scenario.client
                   [(CallFhir "Patient" (Get None), env);
                    (CallClearToken, env);
                    (CallByName "RS Sehat", env)]
                   Scenario.fresh))
  = ["https://api-satusehat.kemkes.go.id/oauth2/v1/accesstoken?grant_type=client_credentials";
     "https://api-satusehat.kemkes.go.id/fhir-r4/v1/Patient";
     "https://api-satusehat.kemkes.go.id/oauth2/v1/accesstoken?grant_type=client_credentials";
     "https://api-satusehat.kemkes.go.id/fhir-r4/v1/Organization?name=RS%20Sehat"].
Proof. reflexivity. Qed.

(** [byName] spells a space [%20], the builder's search spells it [+]. *)
Example byName_and_builder_spell_a_space :
  url (byName_request Demo.organizations "RS Sehat" "tok-0")
  = "https://x/fhir/Organization?name=RS%20Sehat"
  /\ buildUrl (P := Demo.platform) (org_fhir Demo.organizations) None
       (Some [("name", QString "RS Sehat")])
     = "https://x/fhir/Organization?name=RS+Sehat".
Proof. split; reflexivity. Qed.

(** ** Numbers beyond [2 ^ 53] *)

(** [parseInt] gives the nearest double, ties to the even significand. *)
Example parseInt_rounds_to_double :
  parseInt "9007199254740993" = Int 9007199254740992
  /\ parseInt "9007199254740995" = Int 9007199254740996
  /\ parseInt "-9007199254740993" = Int (-9007199254740992).
Proof. repeat split; vm_compute; reflexivity. Qed.

(** The expiry of a token issued at 9007199254740993 for 60 seconds, as
    [fetchToken] computes it. *)
Example expiry_beyond_two53 :
  num_add (parseInt "9007199254740993") (num_mul (parseInt "60") (Int 1000))
  = Int 9007199254800992.
Proof. vm_compute. reflexivity. Qed.

(** A numeral of 310 digits is read as infinity, which stays infinite. *)
Example parseInt_overflows :
  parseInt "9999999999999999999999999999999999999999999999999999999999999999999999999999999999999999999999999999999999999999999999999999999999999999999999999999999999999999999999999999999999999999999999999999999999999999999999999999999999999999999999999999999999999999999999999999999999999999999999999999999999999999999999" = Int infinity
  /\ num_add (Int 1661835069462) (num_mul (Int infinity) (Int 1000)) = Int infinity
  /\ num_ltb (Int 1661835069462) (num_sub (Int infinity) (Int (60 * 1000))) = true.
Proof. repeat split; vm_compute; reflexivity. Qed.
